(** * End-to-end encrypted TODO list on PowerSync: envelope, data crypto,
      SQL statements and the list component

    A shallow embedding of the TypeScript sources

      - [packages/todo/frontend/src/lib/dataCrypto.ts]      ([DataCrypto])
      - [@crypto/interface] helpers                          ([columnsToEnvelope])
      - [packages/todo/frontend/src/powersync/todosSql.ts]  (SQL statements)
      - [packages/todo/frontend/src/powersync/SystemProvider.tsx] (schema)
      - [packages/todo/frontend/src/components/TodoList.tsx] (component)
      - [App.tsx]                                            (list names, key ids)
      - [packages/todo/frontend/src/components/OpenListCard.tsx],
        [SyncStatusBadge.tsx]                                (labels)
      - [packages/crypto/encrypted-sqlite/src/hooks.ts]      ([useEncryptedQuery])

    JavaScript strings are sequences of UTF-16 code units, [Uint8Array]s are
    lists of bytes, a rejected promise or a thrown exception is a [Rejected]
    result.  Library and browser functions the sources call (libsodium, the
    base64 helpers, [JSON], [TextDecoder], the clock and the random sources)
    are the fields of a [Platform]; what is assumed about them is stated in
    separate, named laws. *)

From Stdlib Require Import String Ascii List NArith Bool Lia Arith.
From Stdlib.Strings Require Import Byte.
From Stdlib Require Import Sorted Permutation.
Import ListNotations.

Set Implicit Arguments.
Set Warnings "-register-all".

(* ================================================================== *)
(** ** JavaScript values *)
(* ================================================================== *)

Module JS.

Local Open Scope N_scope.

(** A string is its sequence of UTF-16 code units. *)
Definition jsstring := list N.

(** The contents of a [Uint8Array]. *)
Definition bytes := list byte.

(** String literal of the source. *)
Definition lit (s : string) : jsstring :=
  map N_of_ascii (list_ascii_of_string s).

(** Outcome of an [await]ed promise or of a call that may throw. *)
Inductive error : Set :=
| SodiumError      (* libsodium: bad lengths, tag verification failed *)
| DecodeError      (* base64 helper *)
| SyntaxError      (* JSON.parse *)
| ProviderError    (* CryptoProvider *)
| StorageFailure.  (* db.execute *)

Inductive result (A : Type) : Type :=
| Resolved (a : A)
| Rejected (e : error).
Arguments Rejected {A} e.

Definition fails {A} (r : result A) : Prop :=
  match r with Rejected _ => True | Resolved _ => False end.

(** [x ?? y] *)
Definition nullish {A} (x y : option A) : option A :=
  match x with Some _ => x | None => y end.

(** Truthiness of [string | undefined]: the empty string is falsy. *)
Definition truthy (x : option jsstring) : bool :=
  match x with
  | Some (_ :: _) => true
  | _ => false
  end.

Definition code_eqb (s t : jsstring) : bool :=
  if list_eq_dec N.eq_dec s t then true else false.

Fixpoint starts_with (p s : jsstring) : bool :=
  match p, s with
  | [], _ => true
  | a :: p', b :: s' => N.eqb a b && starts_with p' s'
  | _ :: _, [] => false
  end.

(** [s.includes(p)] *)
Fixpoint includes (s p : jsstring) : bool :=
  starts_with p s ||
  match s with
  | [] => false
  | _ :: s' => includes s' p
  end.

(** White space and line terminators removed by [String.prototype.trim]. *)
Definition is_white_space (c : N) : bool :=
  ((0x0009 <=? c) && (c <=? 0x000D)) || (c =? 0x0020) || (c =? 0x00A0)
  || (c =? 0x1680) || ((0x2000 <=? c) && (c <=? 0x200A))
  || (c =? 0x2028) || (c =? 0x2029) || (c =? 0x202F) || (c =? 0x205F)
  || (c =? 0x3000) || (c =? 0xFEFF).

Fixpoint trim_start (s : jsstring) : jsstring :=
  match s with
  | c :: s' => if is_white_space c then trim_start s' else s
  | [] => []
  end.

Definition trim (s : jsstring) : jsstring :=
  rev (trim_start (rev (trim_start s))).

(** *** [TextEncoder.prototype.encode]

    The string is first converted to a sequence of Unicode scalar values:
    a high surrogate followed by a low surrogate is one supplementary code
    point, any other surrogate is replaced by U+FFFD.  Each scalar value is
    then written in UTF-8. *)

Definition is_high_surrogate (c : N) : bool := (0xD800 <=? c) && (c <=? 0xDBFF).
Definition is_low_surrogate (c : N) : bool := (0xDC00 <=? c) && (c <=? 0xDFFF).

Definition to_byte (n : N) : byte :=
  match Byte.of_N (n mod 256) with
  | Some b => b
  | None => x00
  end.

Definition utf8_code_point (cp : N) : bytes :=
  if cp <? 0x80 then
    [to_byte cp]
  else if cp <? 0x800 then
    [to_byte (N.lor 0xC0 (N.shiftr cp 6));
     to_byte (N.lor 0x80 (N.land cp 0x3F))]
  else if cp <? 0x10000 then
    [to_byte (N.lor 0xE0 (N.shiftr cp 12));
     to_byte (N.lor 0x80 (N.land (N.shiftr cp 6) 0x3F));
     to_byte (N.lor 0x80 (N.land cp 0x3F))]
  else
    [to_byte (N.lor 0xF0 (N.shiftr cp 18));
     to_byte (N.lor 0x80 (N.land (N.shiftr cp 12) 0x3F));
     to_byte (N.lor 0x80 (N.land (N.shiftr cp 6) 0x3F));
     to_byte (N.lor 0x80 (N.land cp 0x3F))].

Definition replacement_character : N := 0xFFFD.

(** [utf8(str)] of [@crypto/interface], i.e. [new TextEncoder().encode(str)]. *)
Fixpoint utf8 (s : jsstring) : bytes :=
  match s with
  | [] => []
  | c :: rest =>
      if is_high_surrogate c then
        match rest with
        | d :: rest' =>
            if is_low_surrogate d then
              utf8_code_point (0x10000 + (c - 0xD800) * 0x400 + (d - 0xDC00))
                ++ utf8 rest'
            else utf8_code_point replacement_character ++ utf8 rest
        | [] => utf8_code_point replacement_character
        end
      else if is_low_surrogate c then
        utf8_code_point replacement_character ++ utf8 rest
      else utf8_code_point c ++ utf8 rest
  end.

(** JSON values as [JSON.parse] returns them.  Numbers are never inspected
    by the sources; they carry their literal. *)
Inductive json : Type :=
| JNull
| JBool (b : bool)
| JNumber (literal : jsstring)
| JString (s : jsstring)
| JArray (items : list json)
| JObject (members : list (jsstring * json)).

(** [obj?.[k]]: [undefined] on anything that is not an object holding [k]. *)
Fixpoint member (k : jsstring) (ms : list (jsstring * json)) : option json :=
  match ms with
  | [] => None
  | (k', v) :: ms' => if code_eqb k k' then Some v else member k ms'
  end.

Definition get (obj : json) (k : jsstring) : option json :=
  match obj with
  | JObject ms => member k ms
  | _ => None
  end.

End JS.
Export JS.


(* ================================================================== *)
(** ** The platform: libraries and browser functions the sources call *)
(* ================================================================== *)

(** [world] is everything outside the program that its calls can read or
    advance: the random sources and the clock.  libsodium, [JSON],
    [TextDecoder], [crypto.getRandomValues] and [Date] are external; the
    base64 helpers belong to [@crypto/interface], whose implementation is
    not among the sources, and are taken as parameters as well.  Nothing is
    assumed of a field unless a law below says so. *)
Record Platform : Type := {
  world : Type;
  (* libsodium-wrappers-sumo *)
  randombytes_buf : nat -> world -> bytes * world;
  (* (message, additional_data, nonce, key); [secret_nonce] is always [null] *)
  crypto_aead_xchacha20poly1305_ietf_encrypt :
    bytes -> option bytes -> bytes -> bytes -> result bytes;
  (* (ciphertext, additional_data, nonce, key) *)
  crypto_aead_xchacha20poly1305_ietf_decrypt :
    bytes -> option bytes -> bytes -> bytes -> result bytes;
  (* @crypto/interface *)
  bytesToBase64 : bytes -> jsstring;
  base64ToBytes : jsstring -> result bytes;
  (* ECMAScript and Web APIs *)
  TextDecoder_decode : bytes -> jsstring;
  JSON_stringify : json -> jsstring;
  JSON_parse : jsstring -> result json;
  getRandomValues : nat -> world -> bytes * world;
  (* new Date().toISOString() *)
  Date_toISOString : world -> jsstring * world
}.

Definition crypto_aead_xchacha20poly1305_ietf_NPUBBYTES : nat := 24.
Definition crypto_aead_xchacha20poly1305_ietf_KEYBYTES : nat := 32.

(** A [null] additional-data argument is the empty additional data. *)
Definition ad_bytes (ad : option bytes) : bytes :=
  match ad with Some b => b | None => [] end.

(** *** What is assumed of the platform *)

(** libsodium: [randombytes_buf n] has length [n]; with a 24-byte nonce and a
    32-byte key, encryption returns and decryption with the same additional
    data, nonce and key gives the message back. *)
Record sodium_correct (P : Platform) : Prop := {
  randombytes_buf_length :
    forall n w, length (fst (randombytes_buf P n w)) = n;
  aead_decrypt_encrypt :
    forall m ad nonce key,
      length nonce = crypto_aead_xchacha20poly1305_ietf_NPUBBYTES ->
      length key = crypto_aead_xchacha20poly1305_ietf_KEYBYTES ->
      exists c,
        crypto_aead_xchacha20poly1305_ietf_encrypt P m ad nonce key = Resolved c /\
        crypto_aead_xchacha20poly1305_ietf_decrypt P c ad nonce key = Resolved m
}.

(** The authentication tag covers the additional data (symbolic reading of
    the AEAD: a tag never verifies under other additional data). *)
Definition sodium_binds_ad (P : Platform) : Prop :=
  forall m ad ad' nonce key c,
    crypto_aead_xchacha20poly1305_ietf_encrypt P m ad nonce key = Resolved c ->
    ad_bytes ad' <> ad_bytes ad ->
    fails (crypto_aead_xchacha20poly1305_ietf_decrypt P c ad' nonce key).

(** The base64 helpers of [@crypto/interface] are inverse on byte arrays. *)
Definition base64_correct (P : Platform) : Prop :=
  forall b, base64ToBytes P (bytesToBase64 P b) = Resolved b.

(* ================================================================== *)
(** ** [@crypto/interface]: envelope and its column form *)
(* ================================================================== *)

(** The type declarations of [CipherEnvelope] and [EncryptedColumns] are not
    among the sources; the records have the fields the sources read and
    write ([header.v], [header.alg], [header.aad], [header.kdf.saltB64],
    [nB64], [cB64]; [alg], [aad], [nonce_b64], [cipher_b64],
    [kdf_salt_b64]). *)
Module Interface.

Record Kdf : Type := { saltB64 : jsstring }.

Record Header : Type := {
  v : N;
  header_alg : jsstring;
  header_aad : option jsstring;
  kdf : Kdf
}.

Record CipherEnvelope : Type := {
  header : Header;
  nB64 : jsstring;
  cB64 : jsstring
}.

(** [EncryptedColumns]: the flat form of an envelope in a row; [aad] and
    [kdf_salt_b64] may be [null]. *)
Record EncryptedColumns : Type := {
  alg : jsstring;
  aad : option jsstring;
  nonce_b64 : jsstring;
  cipher_b64 : jsstring;
  kdf_salt_b64 : option jsstring
}.

(** [columnsToEnvelope(args)] *)
Definition columnsToEnvelope (args : EncryptedColumns) : CipherEnvelope :=
  {| header :=
       {| v := 1;
          header_alg := alg args;
          header_aad := nullish (aad args) None;
          kdf := {| saltB64 :=
                      match kdf_salt_b64 args with
                      | Some s => s
                      | None => lit ""
                      end |} |};
     nB64 := nonce_b64 args;
     cB64 := cipher_b64 args |}.

(** Modelled from the spec: [envelopeToColumns], the inverse direction of
    [columnsToEnvelope], is named by the round-trip law only and is not part
    of the sources.  It flattens an envelope into the five columns
    (algorithm, aad, nonce, ciphertext, kdf salt), each stored as its own
    column, the byte fields as their base64 strings. *)
Definition envelopeToColumns (e : CipherEnvelope) : EncryptedColumns :=
  {| alg := header_alg (header e);
     aad := header_aad (header e);
     nonce_b64 := nB64 e;
     cipher_b64 := cB64 e;
     kdf_salt_b64 := Some (saltB64 (kdf (header e))) |}.

(** The envelope type fixes the version: every envelope the sources build
    has [v: 1] (written [1 as const] where the literal would widen). *)
Definition valid_envelope (e : CipherEnvelope) : Prop := v (header e) = 1%N.

(** The [decrypt] capability of a [CryptoProvider] (password or WebAuthn). *)
Record CryptoProvider : Type := {
  provider_decrypt : CipherEnvelope -> option jsstring -> result bytes
}.

End Interface.
Export Interface.

(* ================================================================== *)
(** ** [lib/dataCrypto.ts] *)
(* ================================================================== *)

Module DataCrypto.

Definition ALG : jsstring := lit "xchacha20poly1305/raw".

(** [new DataCrypto(key)] *)
Record t : Type := { key : bytes }.

(** [x ? new TextEncoder().encode(x) : null] *)
Definition encode_aad (x : option jsstring) : option bytes :=
  if truthy x then option_map utf8 x else None.

Section WithPlatform.
Variable P : Platform.

(** [encrypt(plain, aad?)] *)
Definition encrypt (this : t) (plain : bytes) (aad : option jsstring)
    (w : world P) : result CipherEnvelope * world P :=
  let (nonce, w') :=
    randombytes_buf P crypto_aead_xchacha20poly1305_ietf_NPUBBYTES w in
  match crypto_aead_xchacha20poly1305_ietf_encrypt P
          plain (encode_aad aad) nonce (key this) with
  | Rejected e => (Rejected e, w')
  | Resolved ct =>
      (Resolved
         {| header := {| v := 1;
                         header_alg := ALG;
                         header_aad := aad;
                         kdf := {| saltB64 := lit "" |} |};
            nB64 := bytesToBase64 P nonce;
            cB64 := bytesToBase64 P ct |},
       w')
  end.

(** [decrypt(env, aad?)] *)
Definition decrypt (this : t) (env : CipherEnvelope) (aad : option jsstring)
    : result bytes :=
  match base64ToBytes P (nB64 env) with
  | Rejected e => Rejected e
  | Resolved nonce =>
      match base64ToBytes P (cB64 env) with
      | Rejected e => Rejected e
      | Resolved ct =>
          crypto_aead_xchacha20poly1305_ietf_decrypt P
            ct (encode_aad (nullish aad (header_aad (header env))))
            nonce (key this)
      end
  end.

(** [generateDEK()] *)
Definition generateDEK (w : world P) : bytes * world P :=
  randombytes_buf P 32 w.

End WithPlatform.

End DataCrypto.

(* ================================================================== *)
(** ** [powersync/SystemProvider.tsx] and [powersync/todosSql.ts] *)
(* ================================================================== *)

Module TodosSql.

(** *** Declared columns *)

Inductive column_type : Set := column_text.

(** [const todos = new Table({ ... })] of the PowerSync schema. *)
Definition todos_Table : list (string * column_type) :=
  [ ("id", column_text);
    ("user_id", column_text);
    ("bucket_id", column_text);
    ("alg", column_text);
    ("aad", column_text);
    ("nonce_b64", column_text);
    ("cipher_b64", column_text);
    ("kdf_salt_b64", column_text);
    ("created_at", column_text);
    ("updated_at", column_text) ]%string.

Record column_def : Set := {
  column_name : string;
  type_name : string;
  column_constraint : string
}.

(** The column definitions of [CREATE_TABLE_SQL]. *)
Definition CREATE_TABLE_SQL : list column_def :=
  [ {| column_name := "id"; type_name := "TEXT"; column_constraint := "PRIMARY KEY" |};
    {| column_name := "user_id"; type_name := "TEXT"; column_constraint := "NOT NULL" |};
    {| column_name := "bucket_id"; type_name := "TEXT"; column_constraint := "" |};
    {| column_name := "alg"; type_name := "TEXT"; column_constraint := "NOT NULL" |};
    {| column_name := "aad"; type_name := "TEXT"; column_constraint := "" |};
    {| column_name := "nonce_b64"; type_name := "TEXT"; column_constraint := "NOT NULL" |};
    {| column_name := "cipher_b64"; type_name := "TEXT"; column_constraint := "NOT NULL" |};
    {| column_name := "kdf_salt_b64"; type_name := "TEXT"; column_constraint := "NOT NULL" |};
    {| column_name := "created_at"; type_name := "TEXT"; column_constraint := "NOT NULL" |};
    {| column_name := "updated_at"; type_name := "TEXT"; column_constraint := "NOT NULL" |} ]%string.

(** The column list of [INSERT_SQL]. *)
Definition INSERT_SQL_columns : list string :=
  [ "id"; "user_id"; "bucket_id"; "alg"; "aad"; "nonce_b64"; "cipher_b64";
    "kdf_salt_b64"; "created_at"; "updated_at" ]%string.

(** The columns the specification names. *)
Definition implicit_columns : list string :=
  [ "id"; "user_id"; "bucket_id"; "updated_at" ]%string.

Definition envelope_columns : list string :=
  [ "alg"; "aad"; "nonce_b64"; "cipher_b64"; "kdf_salt_b64" ]%string.

(** *** Rows and SQL values *)

(** A row of [todos]: the envelope columns and the plaintext columns around
    them.  [bucket_id] and [aad] are nullable. *)
Record TodoRow : Type := {
  id : jsstring;
  user_id : jsstring;
  bucket_id : option jsstring;
  columns : EncryptedColumns;
  created_at : jsstring;
  updated_at : jsstring
}.

(** A SQL value of the statements below: [NULL] or a text. *)
Definition sqlvalue := option jsstring.

(** Three-valued logic: [None] is unknown. *)
Definition sql_eq (a b : sqlvalue) : option bool :=
  match a, b with
  | Some x, Some y => Some (code_eqb x y)
  | _, _ => None
  end.

Definition sql_and (p q : option bool) : option bool :=
  match p, q with
  | Some false, _ => Some false
  | _, Some false => Some false
  | Some true, Some true => Some true
  | _, _ => None
  end.

(** [NULLIF(a, b)]: [NULL] when [a = b] is true, else [a]. *)
Definition NULLIF (a b : sqlvalue) : sqlvalue :=
  match sql_eq a b with
  | Some true => None
  | _ => a
  end.

(** [COALESCE(a, b)]: the first argument that is not [NULL]. *)
Definition COALESCE (a b : sqlvalue) : sqlvalue :=
  match a with
  | Some _ => a
  | None => b
  end.

(** A row is selected when the [WHERE] condition is true (not false, not
    unknown). *)
Definition where_true (c : option bool) : bool :=
  match c with
  | Some true => true
  | _ => false
  end.

(** Text order of the BINARY collation: bytes of the UTF-8 form. *)
Fixpoint bytes_leb (a b : bytes) : bool :=
  match a, b with
  | [], _ => true
  | _ :: _, [] => false
  | x :: a', y :: b' =>
      if N.ltb (Byte.to_N x) (Byte.to_N y) then true
      else if N.ltb (Byte.to_N y) (Byte.to_N x) then false
      else bytes_leb a' b'
  end.

Definition text_leb (a b : jsstring) : bool := bytes_leb (utf8 a) (utf8 b).

(** [ORDER BY created_at DESC], rows of equal key in table order: [r], a
    row that stands before those of [sorted] in the table, goes in front of
    the first row whose key is not greater than its own. *)
Fixpoint insert_desc (r : TodoRow) (sorted : list TodoRow) : list TodoRow :=
  match sorted with
  | [] => [r]
  | r' :: rest =>
      if text_leb (created_at r') (created_at r)
      then r :: sorted
      else r' :: insert_desc r rest
  end.

Definition ORDER_BY_created_at_DESC (rows : list TodoRow) : list TodoRow :=
  fold_right insert_desc [] rows.

(** [SELECT * FROM todos WHERE user_id = ? ORDER BY created_at DESC] *)
Definition SELECT_BY_USER_SQL (todos : list TodoRow) (p1 : sqlvalue)
    : list TodoRow :=
  ORDER_BY_created_at_DESC
    (filter (fun r => where_true (sql_eq (Some (user_id r)) p1)) todos).

(** [SELECT * FROM todos WHERE user_id = ? AND bucket_id = ?
     ORDER BY created_at DESC] *)
Definition SELECT_BY_USER_AND_BUCKET_SQL (todos : list TodoRow)
    (p1 p2 : sqlvalue) : list TodoRow :=
  ORDER_BY_created_at_DESC
    (filter (fun r => where_true
               (sql_and (sql_eq (Some (user_id r)) p1)
                        (sql_eq (bucket_id r) p2))) todos).

(** [SELECT * FROM todos WHERE user_id = ?
       AND COALESCE(NULLIF(?, ''), bucket_id) = bucket_id
     ORDER BY created_at DESC] *)
Definition SELECT_BY_USER_OPTIONAL_BUCKET_SQL (todos : list TodoRow)
    (p1 p2 : sqlvalue) : list TodoRow :=
  ORDER_BY_created_at_DESC
    (filter (fun r => where_true
               (sql_and (sql_eq (Some (user_id r)) p1)
                        (sql_eq (COALESCE (NULLIF p2 (Some (lit ""))) (bucket_id r))
                                (bucket_id r)))) todos).

(** [INSERT INTO todos (...) VALUES (?, ..., ?)] on the table of
    [CREATE_TABLE_SQL]: [id] is the primary key, and of the columns declared
    [NOT NULL] only [kdf_salt_b64] can be [NULL] in a [TodoRow]. *)
Definition INSERT_SQL (todos : list TodoRow) (r : TodoRow)
    : result (list TodoRow) :=
  if existsb (fun r' => code_eqb (id r') (id r)) todos
  then Rejected StorageFailure                       (* PRIMARY KEY *)
  else match kdf_salt_b64 (columns r) with
       | None => Rejected StorageFailure             (* NOT NULL *)
       | Some _ => Resolved (todos ++ [r])
       end.

(** [UPDATE todos SET alg = ?, aad = ?, nonce_b64 = ?, cipher_b64 = ?,
     kdf_salt_b64 = ?, updated_at = ? WHERE id = ? AND user_id = ?].
    The handlers always pass a string for [kdf_salt_b64]
    ([env.header.kdf.saltB64 ?? ""]); what the table does with [NULL] there
    is not modelled. *)
Definition UPDATE_SQL (todos : list TodoRow) (c : EncryptedColumns)
    (now : jsstring) (p_id p_user_id : jsstring) : list TodoRow :=
  map (fun r =>
         if code_eqb (id r) p_id && code_eqb (user_id r) p_user_id
         then {| id := id r; user_id := user_id r; bucket_id := bucket_id r;
                 columns := c;
                 created_at := created_at r; updated_at := now |}
         else r) todos.

(** [DELETE FROM todos WHERE id = ? AND user_id = ?] *)
Definition DELETE_SQL (todos : list TodoRow) (p_id p_user_id : jsstring)
    : list TodoRow :=
  filter (fun r => negb (code_eqb (id r) p_id && code_eqb (user_id r) p_user_id))
         todos.

End TodosSql.
Export TodosSql.

(* ================================================================== *)
(** ** [components/TodoList.tsx] *)
(* ================================================================== *)

Module TodoList.

(** [type Todo] *)
Record Todo : Type := {
  todo_id : jsstring;
  text : jsstring;
  completed : bool;
  env : CipherEnvelope;
  synced : bool
}.

(** The [useState] cells of the component read by the handlers below. *)
Record State : Type := {
  items : list Todo;
  text_input : jsstring;          (* [text] *)
  bucketId : jsstring;
  userId : option jsstring;
  dataCrypto : option DataCrypto.t
}.

Definition setItems (f : list Todo -> list Todo) (st : State) : State :=
  {| items := f (items st); text_input := text_input st;
     bucketId := bucketId st; userId := userId st;
     dataCrypto := dataCrypto st |}.

Definition setText (s : jsstring) (st : State) : State :=
  {| items := items st; text_input := s;
     bucketId := bucketId st; userId := userId st;
     dataCrypto := dataCrypto st |}.

(** [const aad = useMemo(() => "todo-v1", [])] *)
Definition aad_todo : jsstring := lit "todo-v1".

(** [b.toString(16).padStart(2, "0")] *)
Definition hex_digit (n : N) : N :=
  if N.ltb n 10 then (48 + n)%N else (87 + n)%N.

Definition hex_byte (b : byte) : jsstring :=
  [hex_digit (N.div (Byte.to_N b) 16); hex_digit (N.modulo (Byte.to_N b) 16)].

(** The payload object [{ text, completed }]. *)
Definition payload_object (t : jsstring) (c : bool) : json :=
  JObject [(lit "text", JString t); (lit "completed", JBool c)].

(** [x || null] on a string *)
Definition or_null (x : jsstring) : option jsstring :=
  match x with
  | [] => None
  | _ :: _ => Some x
  end.

(** The envelope parameters of [INSERT_SQL] and [UPDATE_SQL] as the handlers
    pass them: [env.header.alg, aad ?? null, env.nB64, env.cB64,
    env.header.kdf.saltB64 ?? ""]. *)
Definition envelope_params (env : CipherEnvelope) : EncryptedColumns :=
  {| alg := header_alg (header env);
     aad := nullish (Some aad_todo) None;
     nonce_b64 := nB64 env;
     cipher_b64 := cB64 env;
     kdf_salt_b64 := Some (saltB64 (kdf (header env))) |}.

Section WithPlatform.
Variable P : Platform.

(** The component with the local database and the outside world. *)
Record System : Type := {
  state : State;
  todos : list TodoRow;
  outside : world P
}.

(** [cryptoRandomId()] *)
Definition cryptoRandomId (w : world P) : jsstring * world P :=
  let (bs, w') := getRandomValues P 10 w in
  (flat_map hex_byte bs, w').

(** *** The decrypt effect (rows of the live query to [items]) *)

(** [columnsToEnvelope({ alg: r.alg, aad: r.aad ?? null, ... })] *)
Definition row_envelope (r : TodoRow) : CipherEnvelope :=
  columnsToEnvelope
    {| alg := alg (columns r);
       aad := nullish (aad (columns r)) None;
       nonce_b64 := nonce_b64 (columns r);
       cipher_b64 := cipher_b64 (columns r);
       kdf_salt_b64 := kdf_salt_b64 (columns r) |}.

(** Decoding of a decrypted payload: the text is the decoded string and
    [completed] is [false] unless the payload parses as JSON with a string
    [text] and a boolean [completed]. *)
Definition parse_plain (plain : bytes) : jsstring * bool :=
  let decoded := TextDecoder_decode P plain in
  match JSON_parse P decoded with
  | Rejected _ => (decoded, false)
  | Resolved obj =>
      (match get obj (lit "text") with
       | Some (JString s) => s
       | _ => decoded
       end,
       match get obj (lit "completed") with
       | Some (JBool b) => b
       | _ => false
       end)
  end.

(** The body of the [try] block for one row: [Resolved None] is the
    [continue] of a locked list, [Rejected] an exception thrown inside. *)
Definition decrypt_row (crypto : CryptoProvider) (dc : option DataCrypto.t)
    (r : TodoRow) : result (option Todo) :=
  let env := row_envelope r in
  let isRaw := includes (header_alg (header env)) (lit "/raw") in
  let project (plain : bytes) :=
    let (text, completed) := parse_plain plain in
    Resolved (Some {| todo_id := id r; text := text; completed := completed;
                      env := env; synced := true |}) in
  if isRaw then
    match dc with
    | None => Resolved None
    | Some dataCrypto =>
        match DataCrypto.decrypt P dataCrypto env (nullish (aad (columns r)) None) with
        | Resolved plain => project plain
        | Rejected e => Rejected e
        end
    end
  else
    match provider_decrypt crypto env (nullish (aad (columns r)) None) with
    | Resolved plain => project plain
    | Rejected e => Rejected e
    end.

(** What one row adds to [serverItems], and whether its iteration ends in
    the [catch]. *)
Definition projection (crypto : CryptoProvider) (dc : option DataCrypto.t)
    (r : TodoRow) : list Todo :=
  match decrypt_row crypto dc r with
  | Resolved (Some t) => [t]
  | _ => []
  end.

Definition caught (crypto : CryptoProvider) (dc : option DataCrypto.t)
    (r : TodoRow) : bool :=
  match decrypt_row crypto dc r with
  | Rejected _ => true
  | Resolved _ => false
  end.

(** The variables of the [for] loop. *)
Record Loop : Type := {
  serverItems : list Todo;
  ok : nat;
  fail : nat
}.

(** One iteration: [try { ... push; ok++ } catch (e) { fail++ }]. *)
Definition loop_body (crypto : CryptoProvider) (dc : option DataCrypto.t)
    (acc : Loop) (r : TodoRow) : Loop :=
  match decrypt_row crypto dc r with
  | Resolved (Some t) =>
      {| serverItems := serverItems acc ++ [t]; ok := S (ok acc); fail := fail acc |}
  | Resolved None => acc
  | Rejected _ =>
      {| serverItems := serverItems acc; ok := ok acc; fail := S (fail acc) |}
  end.

Definition decrypt_rows (crypto : CryptoProvider) (dc : option DataCrypto.t)
    (rows : list TodoRow) : Loop :=
  fold_left (loop_body crypto dc) rows
            {| serverItems := []; ok := 0; fail := 0 |}.

(** [setItems((prev) => [...optimistic, ...serverItems])] *)
Definition merge_items (server : list Todo) (prev : list Todo) : list Todo :=
  let serverIds := map todo_id server in
  let optimistic :=
    filter (fun t => negb (synced t)
                     && negb (existsb (code_eqb (todo_id t)) serverIds)) prev in
  optimistic ++ server.

(** The effect that runs when [rows], [crypto], [dataCrypto] or [isFetching]
    change. *)
Definition decrypt_effect (crypto : CryptoProvider) (rows : option (list TodoRow))
    (isFetching : bool) (st : State) : State :=
  match rows with
  | None => st
  | Some rs =>
      if isFetching && Nat.eqb (List.length rs) 0 then st
      else setItems (merge_items (serverItems (decrypt_rows crypto (dataCrypto st) rs))) st
  end.

(** *** Handlers *)

Definition with_outside (s : System) (w : world P) : System :=
  {| state := state s; todos := todos s; outside := w |}.

(** [addTodo()] *)
Definition addTodo (s : System) : result unit * System :=
  let st := state s in
  let trimmed := trim (text_input st) in
  if negb (truthy (Some trimmed)) then (Resolved tt, s)
  else
    match dataCrypto st with
    | None => (Resolved tt, s)
    | Some dc =>
        let payload := JSON_stringify P (payload_object trimmed false) in
        let (enc, w1) := DataCrypto.encrypt P dc (utf8 payload) (Some aad_todo) (outside s) in
        match enc with
        | Rejected e => (Rejected e, with_outside s w1)
        | Resolved env =>
            let (new_id, w2) := cryptoRandomId w1 in
            let st1 :=
              setText (lit "")
                (setItems (fun prev =>
                             {| todo_id := new_id; text := trimmed; completed := false;
                                env := env; synced := false |} :: prev) st) in
            match userId st with
            | Some (u0 :: u') =>
              let (now, w3) := Date_toISOString P w2 in
              match
                INSERT_SQL (todos s)
                  {| id := new_id;
                     user_id := u0 :: u';
                     bucket_id := or_null (bucketId st);
                     columns := envelope_params env;
                     created_at := now;
                     updated_at := now |}
              with
              | Rejected e =>
                  (Rejected e, {| state := st1; todos := todos s; outside := w3 |})
              | Resolved todos' =>
                  (Resolved tt,
                   {| state :=
                        setItems
                          (map (fun t =>
                                  if code_eqb (todo_id t) new_id
                                  then {| todo_id := todo_id t; text := text t;
                                          completed := completed t; env := TodoList.env t;
                                          synced := true |}
                                  else t)) st1;
                      todos := todos';
                      outside := w3 |})
              end
            | _ => (Resolved tt, {| state := st1; todos := todos s; outside := w2 |})
            end
        end
    end.

(** [toggleCompleted(id)] *)
Definition toggleCompleted (p_id : jsstring) (s : System) : result unit * System :=
  let st := state s in
  match find (fun x => code_eqb (todo_id x) p_id) (items st) with
  | None => (Resolved tt, s)
  | Some t =>
      match dataCrypto st with
      | None => (Resolved tt, s)
      | Some dc =>
          let nextCompleted := negb (completed t) in
          let payload := JSON_stringify P (payload_object (text t) nextCompleted) in
          let (enc, w1) := DataCrypto.encrypt P dc (utf8 payload) (Some aad_todo) (outside s) in
          match enc with
          | Rejected e => (Rejected e, with_outside s w1)
          | Resolved env =>
              let st1 :=
                setItems
                  (map (fun x =>
                          if code_eqb (todo_id x) p_id
                          then {| todo_id := todo_id x; text := text x;
                                  completed := nextCompleted; env := env;
                                  synced := false |}
                          else x)) st in
              match userId st with
              | Some (u0 :: u') =>
                  let u := u0 :: u' in
                  let (now, w2) := Date_toISOString P w1 in
                  let todos' :=
                    UPDATE_SQL (todos s) (envelope_params env) now p_id u in
                  (Resolved tt,
                   {| state :=
                        setItems
                          (map (fun x =>
                                  if code_eqb (todo_id x) p_id
                                  then {| todo_id := todo_id x; text := text x;
                                          completed := completed x; env := TodoList.env x;
                                          synced := true |}
                                  else x)) st1;
                      todos := todos';
                      outside := w2 |})
              | _ => (Resolved tt, {| state := st1; todos := todos s; outside := w1 |})
              end
          end
      end
  end.

(** [removeTodo(id)] *)
Definition removeTodo (p_id : jsstring) (s : System) : result unit * System :=
  let st1 := setItems (filter (fun x => negb (code_eqb (todo_id x) p_id))) (state s) in
  (Resolved tt,
   {| state := st1;
      todos := match userId (state s) with
               | Some (u0 :: u') => DELETE_SQL (todos s) p_id (u0 :: u')
               | _ => todos s
               end;
      outside := outside s |}).

End WithPlatform.

End TodoList.

(* ================================================================== *)
(** ** A reference platform

    An executable platform on which the model runs on concrete inputs, and
    which satisfies every law assumed of the platform.  Its cipher frames the
    message with the additional data, the nonce and the key; its base64 and
    text decoding are byte-for-unit; its JSON writes the payload object of
    the list in a unary code. *)
(* ================================================================== *)

Module Reference.

Record ref_world : Type := {
  clock : list jsstring;     (* the readings of the clock still to come *)
  entropy : N                (* the state of the random sources *)
}.

Definition epoch : jsstring := lit "1970-01-01T00:00:00.000Z".

Definition ref_random (n : nat) (w : ref_world) : bytes * ref_world :=
  (repeat (to_byte (entropy w)) n,
   {| clock := clock w; entropy := N.succ (entropy w) |}).

Definition ref_clock (w : ref_world) : jsstring * ref_world :=
  match clock w with
  | [] => (epoch, w)
  | now :: later => (now, {| clock := later; entropy := entropy w |})
  end.

(** Self-delimiting form of the additional data. *)
Fixpoint frame (ad : bytes) : bytes :=
  match ad with
  | [] => [x00]
  | b :: ad' => x01 :: b :: frame ad'
  end.

Fixpoint strip_prefix (p l : bytes) : option bytes :=
  match p, l with
  | [], _ => Some l
  | x :: p', y :: l' => if Byte.eqb x y then strip_prefix p' l' else None
  | _ :: _, [] => None
  end.

Definition lengths_ok (nonce key : bytes) : bool :=
  Nat.eqb (List.length nonce) crypto_aead_xchacha20poly1305_ietf_NPUBBYTES
  && Nat.eqb (List.length key) crypto_aead_xchacha20poly1305_ietf_KEYBYTES.

Definition ref_encrypt (m : bytes) (ad : option bytes) (nonce key : bytes)
    : result bytes :=
  if lengths_ok nonce key
  then Resolved (frame (ad_bytes ad) ++ nonce ++ key ++ m)
  else Rejected SodiumError.

Definition ref_decrypt (c : bytes) (ad : option bytes) (nonce key : bytes)
    : result bytes :=
  if lengths_ok nonce key then
    match strip_prefix (frame (ad_bytes ad) ++ nonce ++ key) c with
    | Some m => Resolved m
    | None => Rejected SodiumError
    end
  else Rejected SodiumError.

Definition ref_bytesToBase64 (b : bytes) : jsstring := map Byte.to_N b.

Definition ref_base64ToBytes (s : jsstring) : result bytes :=
  if forallb (fun c => N.ltb c 256) s
  then Resolved (map to_byte s)
  else Rejected DecodeError.

Definition ref_decode (b : bytes) : jsstring := map Byte.to_N b.

(** Unary code of a string: each code unit [c] is [c] ones and a zero. *)
Fixpoint unary (t : jsstring) : jsstring :=
  match t with
  | [] => []
  | c :: t' => repeat 1%N (N.to_nat c) ++ 0%N :: unary t'
  end.

Fixpoint un_unary (count : N) (s : jsstring) : option jsstring :=
  match s with
  | [] => if N.eqb count 0 then Some [] else None
  | d :: s' =>
      if N.eqb d 1 then un_unary (N.succ count) s'
      else if N.eqb d 0 then option_map (cons count) (un_unary 0 s')
      else None
  end.

Definition ref_stringify (j : json) : jsstring :=
  match j with
  | JObject [(k1, JString t); (k2, JBool c)] =>
      if code_eqb k1 (lit "text") && code_eqb k2 (lit "completed")
      then (if c then 1%N else 0%N) :: unary t
      else [2%N]
  | _ => [2%N]
  end.

Definition ref_parse (s : jsstring) : result json :=
  match s with
  | flag :: rest =>
      if N.leb flag 1 then
        match un_unary 0 rest with
        | Some t => Resolved (TodoList.payload_object t (N.eqb flag 1))
        | None => Rejected SyntaxError
        end
      else Rejected SyntaxError
  | [] => Rejected SyntaxError
  end.

Definition platform : Platform :=
  {| world := ref_world;
     randombytes_buf := ref_random;
     crypto_aead_xchacha20poly1305_ietf_encrypt := ref_encrypt;
     crypto_aead_xchacha20poly1305_ietf_decrypt := ref_decrypt;
     bytesToBase64 := ref_bytesToBase64;
     base64ToBytes := ref_base64ToBytes;
     TextDecoder_decode := ref_decode;
     JSON_stringify := ref_stringify;
     JSON_parse := ref_parse;
     getRandomValues := ref_random;
     Date_toISOString := ref_clock |}.

(** A provider that decrypts nothing (a wrong passphrase). *)
Definition locked_provider : CryptoProvider :=
  {| provider_decrypt := fun _ _ => Rejected ProviderError |}.

Definition key32 : bytes := repeat x07 32.

Definition w0 : ref_world := {| clock := []; entropy := 1 |}.

End Reference.

(** [JSON.parse(new TextDecoder().decode(utf8(JSON.stringify(o))))] gives the
    payload object [o] back (ES2019: [JSON.stringify] escapes lone
    surrogates, so its output survives UTF-8). *)
Definition payload_codec_correct (P : Platform) : Prop :=
  forall t c,
    JSON_parse P (TextDecoder_decode P (utf8 (JSON_stringify P (TodoList.payload_object t c))))
    = Resolved (TodoList.payload_object t c).

(** ISO 8601 UTC strings of equal length order as their instants. *)
Definition strictly_later (a b : jsstring) : bool := negb (text_leb a b).

(** A row as [addTodo] writes it when the bucket field is empty
    ([bucketId || null]). *)
Definition row_without_bucket : TodoRow :=
  {| id := lit "0a0b0c0d0e0f10111213";
     user_id := lit "user-1";
     bucket_id := None;
     columns := {| alg := DataCrypto.ALG; aad := Some TodoList.aad_todo;
                   nonce_b64 := lit "bm9uY2U="; cipher_b64 := lit "Y2lwaGVy";
                   kdf_salt_b64 := Some (lit "") |};
     created_at := lit "2025-01-01T10:00:00.000Z";
     updated_at := lit "2025-01-01T10:00:00.000Z" |}.

(* ================================================================== *)
(** ** Runs on the reference platform *)
(* ================================================================== *)

Module Scenario.
Import Reference TodoList.

Definition T1 : jsstring := lit "2025-01-01T10:00:00.000Z".

(** Signed in, unlocked, "a" typed in the input, empty table; the clock
    reads [T1] twice. *)
Definition s0 : System platform :=
  @Build_System platform
    {| items := [];
       text_input := lit "a";
       bucketId := lit "";
       userId := Some (lit "user-1");
       dataCrypto := Some {| DataCrypto.key := key32 |} |}
    []
    {| clock := [T1; T1]; entropy := 1 |}.

Definition s1 : System platform := snd (addTodo s0).

Definition inserted_id : jsstring :=
  match todos s1 with
  | r :: _ => id r
  | [] => []
  end.

Definition s2 : System platform := snd (toggleCompleted inserted_id s1).

(** A raw row whose ciphertext no key opens. *)
Definition undecryptable : TodoRow := row_without_bucket.

(** An item marked synced, as the decrypt effect builds them, and a list
    without DEK that holds it. *)
Definition mirrored : Todo :=
  {| todo_id := id undecryptable;
     text := lit "Buy milk";
     completed := false;
     env := row_envelope undecryptable;
     synced := true |}.

Definition locked : State :=
  {| items := [mirrored];
     text_input := lit "";
     bucketId := lit "";
     userId := Some (lit "user-1");
     dataCrypto := None |}.

End Scenario.

(* ================================================================== *)
(** ** [App.tsx]: list names and key identifiers *)
(* ================================================================== *)

Module App.

Definition dash : N := 45%N.
Definition colon : N := 58%N.

(** The class [[a-z0-9]] of the regular expressions of [slugify]. *)
Definition is_slug_char (c : N) : bool :=
  (N.leb 97 c && N.leb c 122) || (N.leb 48 c && N.leb c 57).

(** [.replace(/[^a-z0-9]+/g, "-")]: every maximal run of other code units
    becomes one dash.  [in_run] tells that the previous unit was replaced. *)
Fixpoint replace_runs (in_run : bool) (s : jsstring) : jsstring :=
  match s with
  | [] => []
  | c :: s' =>
      if is_slug_char c then c :: replace_runs false s'
      else if in_run then replace_runs true s'
      else dash :: replace_runs true s'
  end.

Fixpoint drop_dashes (s : jsstring) : jsstring :=
  match s with
  | c :: s' => if N.eqb c dash then drop_dashes s' else s
  | [] => []
  end.

(** [.replace(/^-+|-+$/g, "")] *)
Definition strip_dashes (s : jsstring) : jsstring :=
  rev (drop_dashes (rev (drop_dashes s))).

(** [x || "list"] *)
Definition or_list (x : jsstring) : jsstring :=
  match x with
  | [] => lit "list"
  | _ :: _ => x
  end.

(** [slugify(s)]; [String.prototype.toLowerCase] is the platform's. *)
Definition slugify (toLowerCase : jsstring -> jsstring) (s : jsstring) : jsstring :=
  or_list (firstn 32 (strip_dashes (replace_runs false (trim (toLowerCase s))))).

Inductive Method : Set := password | webauthn.

Definition method_name (m : Method) : jsstring :=
  match m with
  | password => lit "password"
  | webauthn => lit "webauthn"
  end.

(** The key id [onCreate] builds:
    [userId ? `${userId}:${method}:${slug}` : `${method}:${slug}`]. *)
Definition keyId (userId : option jsstring) (method : Method) (slug : jsstring)
    : jsstring :=
  match userId with
  | Some (u0 :: u') => (u0 :: u') ++ colon :: method_name method ++ colon :: slug
  | _ => method_name method ++ colon :: slug
  end.

End App.

(* ================================================================== *)
(** ** [components/OpenListCard.tsx] *)
(* ================================================================== *)

Module OpenListCard.

(** [s.split(sep)] for a separator of one code unit. *)
Fixpoint split (sep : N) (s : jsstring) : list jsstring :=
  match s with
  | [] => [[]]
  | c :: s' =>
      if N.eqb c sep then [] :: split sep s'
      else match split sep s' with
           | part :: parts => (c :: part) :: parts
           | [] => [[c]]
           end
  end.

(** [labelFromId(id)]: [id.split(":")[2] || id] *)
Definition labelFromId (id : jsstring) : jsstring :=
  match nth_error (split App.colon id) 2 with
  | Some (c :: part) => c :: part
  | _ => id
  end.

End OpenListCard.

(* ================================================================== *)
(** ** [components/SyncStatusBadge.tsx] and the status line of [TodoList] *)
(* ================================================================== *)

Module SyncStatus.

(** The fields of [useStatus()] the two components read. *)
Record DataFlowStatus : Set := {
  downloading : option bool;
  uploading : option bool
}.

Record Status : Set := {
  connecting : bool;
  connected : bool;
  dataFlowStatus : option DataFlowStatus
}.

Definition ellipsis : N := 0x2026%N.

(** [status.dataFlowStatus?.downloading || status.dataFlowStatus?.uploading],
    read as a condition. *)
Definition flowing (st : Status) : bool :=
  match dataFlowStatus st with
  | None => false
  | Some f =>
      match downloading f with
      | Some true => true
      | _ => match uploading f with Some true => true | _ => false end
      end
  end.

(** The label of [SyncStatusBadge]. *)
Definition badge_label (st : Status) : jsstring :=
  let syncing := flowing st in
  let label := lit "Offline" in
  if connecting st then lit "Connecting" ++ [ellipsis]
  else if connected st && syncing then lit "Syncing" ++ [ellipsis]
  else if connected st then lit "Synced"
  else label.

(** The status text in [TodoList]. *)
Definition list_status_text (st : Status) : jsstring :=
  if connecting st then lit "Connecting" ++ [ellipsis]
  else if connected st then
    (if flowing st then lit "Syncing" ++ [ellipsis] else lit "Synced")
  else lit "Offline".

End SyncStatus.

(* ================================================================== *)
(** ** [powersync/SystemProvider.tsx]: [TokenConnector.uploadData] *)
(* ================================================================== *)

Module Connector.

Inductive UpdateType : Set := PUT | PATCH | DELETE.

(** [CrudEntry]: the fields [uploadData] reads. *)
Record CrudEntry : Type := {
  op : UpdateType;
  table : jsstring;
  entry_id : jsstring;
  opData : list (jsstring * json)
}.

(** What a call on the Supabase client comes to: a result without [error],
    a result with [error.message], or an exception. *)
Inductive Response : Type :=
| NoError
| ResultError (message : jsstring)
| Throws (message : jsstring).

(** The Supabase client over a remote state [R]. *)
Record SupabaseClient (R : Type) : Type := {
  (* table.upsert(record) *)
  upsert : jsstring -> list (jsstring * json) -> R -> R * Response;
  (* table.update(opData).eq("id", id) *)
  update : jsstring -> list (jsstring * json) -> jsstring -> R -> R * Response;
  (* table.delete().eq("id", id) *)
  delete : jsstring -> jsstring -> R -> R * Response
}.

Inductive Outcome : Type :=
| Resolves
| Rejects (message : jsstring).

Section WithClient.
Variable R : Type.
Variable client : SupabaseClient R.

(** [{ ...obj, [k]: v }]: the member is replaced where it stands, or added
    last. *)
Fixpoint set_member (k : jsstring) (v : json) (ms : list (jsstring * json))
    : list (jsstring * json) :=
  match ms with
  | [] => [(k, v)]
  | (k', v') :: ms' =>
      if code_eqb k' k then (k, v) :: ms' else (k', v') :: set_member k v ms'
  end.

(** [{ ...op.opData, id: op.id }] *)
Definition put_record (e : CrudEntry) : list (jsstring * json) :=
  set_member (lit "id") (JString (entry_id e)) (opData e).

(** The [switch (op.op)] *)
Definition send (e : CrudEntry) (remote : R) : R * Response :=
  match op e with
  | PUT => upsert client (table e) (put_record e) remote
  | PATCH => update client (table e) (opData e) (entry_id e) remote
  | DELETE => delete client (table e) (entry_id e) remote
  end.

(** [result.error.message || "Supabase error"] *)
Definition error_message (m : jsstring) : jsstring :=
  match m with
  | [] => lit "Supabase error"
  | _ :: _ => m
  end.

(** [for (const op of tx.crud) { ... }]: the error thrown, if any, and the
    remote state reached. *)
Fixpoint send_all (crud : list CrudEntry) (remote : R) : option jsstring * R :=
  match crud with
  | [] => (None, remote)
  | e :: crud' =>
      match send e remote with
      | (remote', NoError) => send_all crud' remote'
      | (remote', ResultError m) => (Some (error_message m), remote')
      | (remote', Throws m) => (Some m, remote')
      end
  end.

(** [uploadData(database)].  [queue] is the upload queue of the database:
    [getNextCrudTransaction()] returns its first transaction and
    [tx.complete()] removes it.  The function returns the outcome, the
    queue and the remote state it leaves.  [has_client] tells whether
    [this.client] is set. *)
Fixpoint uploadData (has_client : bool) (queue : list (list CrudEntry)) (remote : R)
    : Outcome * list (list CrudEntry) * R :=
  match queue with
  | [] => (Resolves, [], remote)
  | tx :: rest =>
      if has_client then
        match send_all tx remote with
        | (None, remote') => uploadData has_client rest remote'
        | (Some err, remote') => (Rejects err, tx :: rest, remote')
        end
      else uploadData has_client rest remote
  end.

End WithClient.

(** The remote state after the operations [crud], when none of them fails. *)
Definition apply_all (R : Type) (client : SupabaseClient R) (crud : list CrudEntry)
    (remote : R) : R :=
  fold_left (fun r e => fst (send client e r)) crud remote.

End Connector.

(* ================================================================== *)
(** ** [encrypted-sqlite/src/hooks.ts]: [useEncryptedQuery] *)
(* ================================================================== *)

Module Hooks.

(** [args.bucketId]: [undefined], [null] or a bucket. *)
Inductive BucketArg : Type :=
| BucketUndefined
| BucketNull
| BucketValue (b : jsstring).

(** A bound parameter: a string of the hook or a value of the caller. *)
Inductive Param (V : Type) : Type :=
| Text (s : jsstring)
| Given (v : V).
Arguments Text {V} s.

(** The fields of [EncryptedPairConfig] the hook reads. *)
Record Pair : Type := {
  mirrorTable : jsstring;
  mirrorColumns : list jsstring     (* the [name]s *)
}.

Record Args (V : Type) : Type := {
  userId : option jsstring;
  bucketId : BucketArg;
  extraWhere : option jsstring;
  parameters : option (list V);
  throttleMs : option nat;
  orderBy : option jsstring
}.

(** [parts.join(sep)] *)
Fixpoint join (sep : jsstring) (parts : list jsstring) : jsstring :=
  match parts with
  | [] => []
  | [p] => p
  | p :: ps => p ++ sep ++ join sep ps
  end.

Definition nl : jsstring := [10%N].

Section Query.
Variable V : Type.

Definition selectCols (pair : Pair) : jsstring :=
  join (lit ", ")
       ([lit "id"; lit "user_id"; lit "bucket_id"; lit "updated_at"]
          ++ mirrorColumns pair).

Definition bucketSql (args : Args V) : jsstring :=
  match bucketId args with
  | BucketUndefined => lit ""
  | BucketNull => lit " AND bucket_id IS NULL "
  | BucketValue _ => lit " AND bucket_id = ? "
  end.

Definition extra (args : Args V) : jsstring :=
  match extraWhere args with
  | Some (c :: w) => lit " " ++ (c :: w) ++ lit " "
  | _ => lit ""
  end.

Definition order (args : Args V) : jsstring :=
  match orderBy args with
  | Some o => o
  | None => lit "updated_at DESC"
  end.

Definition params (args : Args V) : list (Param V) :=
  let base :=
    Text (match userId args with Some u => u | None => lit "" end)
      :: match bucketId args with
         | BucketValue b => [Text b]
         | _ => []
         end in
  match parameters args with
  | Some ps => base ++ map (@Given V) ps
  | None => base
  end.

(** The template literal. *)
Definition sql (pair : Pair) (args : Args V) : jsstring :=
  nl ++ lit "    SELECT " ++ selectCols pair ++
  nl ++ lit "      FROM " ++ mirrorTable pair ++
  nl ++ lit "     WHERE user_id = ?" ++
  nl ++ lit "     " ++ bucketSql args ++
  nl ++ lit "     " ++ extra args ++
  nl ++ lit "     ORDER BY " ++ order args ++
  nl ++ lit "  ".

End Query.

(** The number of [?] placeholders of a statement. *)
Definition placeholders (s : jsstring) : nat := count_occ N.eq_dec s 63%N.

End Hooks.

(* ================================================================== *)
(** ** [components/TodoList.tsx]: refresh and the DEK effect *)
(* ================================================================== *)

Module TodoEffects.
Import TodoList.

Section WithPlatform.
Variable P : Platform.

(** The body of the inner [try] of [refreshFromServer] for one row. *)
Definition refresh_row (crypto : CryptoProvider) (dc : option DataCrypto.t)
    (r : TodoRow) : result Todo :=
  let env := row_envelope r in
  let project (plain : bytes) :=
    let (text, completed) := parse_plain P plain in
    Resolved {| todo_id := id r; text := text; completed := completed;
                env := env; synced := true |} in
  let useData :=
    if includes (header_alg (header env)) (lit "/raw") then dc else None in
  match useData with
  | Some dataCrypto =>
      match DataCrypto.decrypt P dataCrypto env (nullish (aad (columns r)) None) with
      | Resolved plain => project plain
      | Rejected e => Rejected e
      end
  | None =>
      match provider_decrypt crypto env (nullish (aad (columns r)) None) with
      | Resolved plain => project plain
      | Rejected e => Rejected e
      end
  end.

(** [for (const r of rows) { ... try { ...; decrypted.push(...) } catch {} }] *)
Definition refresh_rows (crypto : CryptoProvider) (dc : option DataCrypto.t)
    (rows : list TodoRow) : list Todo :=
  fold_left
    (fun decrypted r =>
       match refresh_row crypto dc r with
       | Resolved t => decrypted ++ [t]
       | Rejected _ => decrypted
       end)
    rows [].

(** [refreshFromServer()] *)
Definition refreshFromServer (crypto : CryptoProvider) (s : System P) : System P :=
  match userId (state s) with
  | Some (u0 :: u') =>
      let rows := SELECT_BY_USER_SQL (todos s) (Some (u0 :: u')) in
      let decrypted := refresh_rows crypto (dataCrypto (state s)) rows in
      {| state := setItems (fun _ => decrypted) (state s);
         todos := todos s;
         outside := outside s |}
  | _ => s
  end.

End WithPlatform.

(** *** The effect that prepares the DEK

    One run of the effect is two steps: [Begin], from the user id that
    [getCurrentUserId] resolved to up to the first [await] inside the [try],
    and [Settle], from the outcome of [ensureDEKWrapped] to the end of the
    [finally].  Runs interleave at these points. *)

Record DekState : Type := {
  initInFlight : bool;                 (* [initInFlight.current] *)
  dekReadyRef : bool;                  (* [dekReadyRef.current] *)
  dek_userId : option jsstring;        (* [userId] *)
  dek_dataCrypto : option DataCrypto.t; (* [dataCrypto] *)
  suspended : nat;                     (* runs waiting inside the [try] *)
  calls : nat                          (* runs that entered the [try] so far;
                                          each calls [ensureDEKWrapped] at
                                          most once *)
}.

Definition mounted : DekState :=
  {| initInFlight := false; dekReadyRef := false; dek_userId := None;
     dek_dataCrypto := None; suspended := 0; calls := 0 |}.

Inductive DekEvent : Type :=
| Begin (uid : option jsstring)
| Settle (outcome : result bytes).

Definition begin (uid : option jsstring) (st : DekState) : DekState :=
  if negb (truthy uid) then
    {| initInFlight := initInFlight st; dekReadyRef := dekReadyRef st;
       dek_userId := uid; dek_dataCrypto := dek_dataCrypto st;
       suspended := suspended st; calls := calls st |}
  else if dekReadyRef st || initInFlight st then
    {| initInFlight := initInFlight st; dekReadyRef := dekReadyRef st;
       dek_userId := uid; dek_dataCrypto := dek_dataCrypto st;
       suspended := suspended st; calls := calls st |}
  else
    {| initInFlight := true; dekReadyRef := dekReadyRef st;
       dek_userId := uid; dek_dataCrypto := dek_dataCrypto st;
       suspended := S (suspended st); calls := S (calls st) |}.

Definition settle (outcome : result bytes) (st : DekState) : DekState :=
  match outcome with
  | Resolved dek =>
      {| initInFlight := false; dekReadyRef := true;
         dek_userId := dek_userId st;
         dek_dataCrypto := Some {| DataCrypto.key := dek |};
         suspended := pred (suspended st); calls := calls st |}
  | Rejected _ =>
      {| initInFlight := false; dekReadyRef := dekReadyRef st;
         dek_userId := dek_userId st;
         dek_dataCrypto := None;
         suspended := pred (suspended st); calls := calls st |}
  end.

(** A [Settle] can only happen for a run that is suspended. *)
Definition dek_step (ev : DekEvent) (st : DekState) : option DekState :=
  match ev with
  | Begin uid => Some (begin uid st)
  | Settle outcome =>
      match suspended st with
      | O => None
      | S _ => Some (settle outcome st)
      end
  end.

Fixpoint dek_run (trace : list DekEvent) (st : DekState) : option DekState :=
  match trace with
  | [] => Some st
  | ev :: trace' =>
      match dek_step ev st with
      | Some st' => dek_run trace' st'
      | None => None
      end
  end.

End TodoEffects.

(** [crypto.getRandomValues(array)] fills the whole array. *)
Definition getRandomValues_length (P : Platform) : Prop :=
  forall n w, List.length (fst (getRandomValues P n w)) = n.

(** The [NOT NULL] constraints of [CREATE_TABLE_SQL] on a row: of the
    columns they name, only [kdf_salt_b64] can be [NULL] in a [TodoRow]. *)
Definition not_null (r : TodoRow) : Prop := kdf_salt_b64 (columns r) <> None.

(** Rows from the newest to the oldest [created_at]. *)
Definition newest_first (rows : list TodoRow) : Prop :=
  StronglySorted (fun a b => text_leb (created_at b) (created_at a) = true) rows.

(** A lowercase hexadecimal digit, [0-9a-f]. *)
Definition is_lower_hex (c : N) : bool :=
  (N.leb 48 c && N.leb c 57) || (N.leb 97 c && N.leb c 102).

(* ================================================================== *)
(** ** A list whose DEK is not available

    From the mount of [TodoList] until [ensureDEKWrapped] resolves, and for
    good when it rejects, [dataCrypto] is [null].  The rows of the live
    query are processed all the same: those whose [alg] has no "/raw" go
    to the [CryptoProvider]. *)
(* ================================================================== *)

Module LockedScenario.
Import Reference TodoList.

(** The key a password provider works with; it is not the DEK. *)
Definition provider_key : bytes := repeat x09 32.

(** A provider on the reference platform: the cipher of the platform under
    the provider's own key.  It opens what was sealed under that key and
    rejects an envelope sealed under the DEK. *)
Definition password_provider : CryptoProvider :=
  {| provider_decrypt :=
       DataCrypto.decrypt platform {| DataCrypto.key := provider_key |} |}.

Definition provider_alg : jsstring := lit "xchacha20poly1305/password".

(** A row sealed by the provider itself, not under the DEK: the content
    [{text: "Buy milk", completed: false}]. *)
Definition provider_row : TodoRow :=
  {| id := lit "0a0b0c0d0e0f10111213";
     user_id := lit "user-1";
     bucket_id := None;
     columns :=
       match
         fst (DataCrypto.encrypt platform {| DataCrypto.key := provider_key |}
                (utf8 (JSON_stringify platform (payload_object (lit "Buy milk") false)))
                (Some aad_todo) w0)
       with
       | Resolved e =>
           {| alg := provider_alg; aad := Some aad_todo;
              nonce_b64 := nB64 e; cipher_b64 := cB64 e;
              kdf_salt_b64 := Some (lit "") |}
       | Rejected _ => columns row_without_bucket
       end;
     created_at := Scenario.T1;
     updated_at := Scenario.T1 |}.

(** Mounted and signed in; the DEK is not prepared. *)
Definition pending : State :=
  {| items := [];
     text_input := lit "";
     bucketId := lit "";
     userId := Some (lit "user-1");
     dataCrypto := None |}.

(** The decrypt effect has mirrored [provider_row]. *)
Definition mirrored : State :=
  decrypt_effect platform password_provider (Some [provider_row]) false pending.




End LockedScenario.
(* ================================================================== *)
(** * Properties *)
(* ================================================================== *)

(** ** Sanity checks of the JavaScript primitives *)

Example utf8_ascii : utf8 (lit "A/b") = [x41; x2f; x62].
Proof. reflexivity. Qed.

Example utf8_euro : utf8 [0x20AC%N] = [xe2; x82; xac].
Proof. reflexivity. Qed.

Example utf8_pair : utf8 [0xD83D%N; 0xDE00%N] = [xf0; x9f; x98; x80].
Proof. reflexivity. Qed.

Example utf8_lone : utf8 [0xD800%N] = [xef; xbf; xbd].
Proof. reflexivity. Qed.

Example includes_raw : includes (lit "xchacha20poly1305/raw") (lit "/raw") = true.
Proof. reflexivity. Qed.

Example trim_spaces : trim (lit "  a b ") = lit "a b".
Proof. reflexivity. Qed.

Lemma code_eqb_eq (s t : jsstring) : code_eqb s t = true <-> s = t.
Proof.
  unfold code_eqb. destruct (list_eq_dec N.eq_dec s t); split; congruence.
Qed.

Lemma code_eqb_refl (s : jsstring) : code_eqb s s = true.
Proof. now apply code_eqb_eq. Qed.

Lemma code_eqb_neq (s t : jsstring) : code_eqb s t = false <-> s <> t.
Proof.
  unfold code_eqb. destruct (list_eq_dec N.eq_dec s t); split; congruence.
Qed.

(* ------------------------------------------------------------------ *)
(** ** The reference platform satisfies the laws *)
(* ------------------------------------------------------------------ *)

Module ReferenceLaws.
Import Reference.

Lemma to_N_lt_256 (b : byte) : (Byte.to_N b < 256)%N.
Proof. pose proof (Byte.to_N_bounded b). lia. Qed.

Lemma to_byte_to_N (b : byte) : to_byte (Byte.to_N b) = b.
Proof.
  unfold to_byte. rewrite N.mod_small by apply to_N_lt_256.
  now rewrite Byte.of_to_N.
Qed.

Lemma to_N_to_byte (n : N) : (n < 256)%N -> Byte.to_N (to_byte n) = n.
Proof.
  intros Hn. unfold to_byte. rewrite N.mod_small by exact Hn.
  destruct (Byte.of_N n) as [b|] eqn:E.
  - now apply Byte.to_of_N.
  - apply Byte.of_N_None_iff in E. lia.
Qed.

Lemma strip_prefix_app (p m : bytes) : strip_prefix p (p ++ m) = Some m.
Proof.
  induction p as [|x p IH]; simpl; [reflexivity|].
  now rewrite (Byte.byte_dec_lb eq_refl).
Qed.

Lemma strip_prefix_sound (p l m : bytes) :
  strip_prefix p l = Some m -> l = p ++ m.
Proof.
  revert l. induction p as [|x p IH]; intros l H; simpl in *.
  - congruence.
  - destruct l as [|y l]; [discriminate|].
    destruct (Byte.eqb x y) eqn:E; [|discriminate].
    apply Byte.byte_dec_bl in E. subst y. f_equal. now apply IH.
Qed.

(** The framing is prefix-free. *)
Lemma frame_prefix_free (a b r s : bytes) :
  frame a ++ r = frame b ++ s -> a = b.
Proof.
  revert b. induction a as [|x a IH]; intros [|y b] H; simpl in H.
  - reflexivity.
  - discriminate.
  - discriminate.
  - injection H as -> H. f_equal. now apply IH.
Qed.

Lemma ref_sodium_correct : sodium_correct platform.
Proof.
  split.
  - intros n w. simpl. apply repeat_length.
  - intros m ad nonce key Hn Hk. simpl.
    unfold ref_encrypt, ref_decrypt, lengths_ok.
    rewrite Hn, Hk, !Nat.eqb_refl. simpl.
    eexists. split; [reflexivity|].
    replace (frame (ad_bytes ad) ++ nonce ++ key ++ m)
      with ((frame (ad_bytes ad) ++ nonce ++ key) ++ m)
      by now rewrite <- !app_assoc.
    now rewrite strip_prefix_app.
Qed.

Lemma ref_sodium_binds_ad : sodium_binds_ad platform.
Proof.
  intros m ad ad' nonce key c Henc Hneq. simpl in *.
  unfold ref_encrypt in Henc. unfold ref_decrypt.
  destruct (lengths_ok nonce key); [|exact I].
  injection Henc as <-.
  destruct (strip_prefix _ _) as [m'|] eqn:E; [|exact I].
  apply strip_prefix_sound in E.
  rewrite <- !app_assoc in E.
  apply frame_prefix_free in E. congruence.
Qed.

Lemma ref_base64_correct : base64_correct platform.
Proof.
  intros b. simpl. unfold ref_base64ToBytes, ref_bytesToBase64.
  assert (H : forallb (fun c => N.ltb c 256) (map Byte.to_N b) = true).
  { apply forallb_forall. intros c Hc. apply in_map_iff in Hc as (x & <- & _).
    apply N.ltb_lt, to_N_lt_256. }
  rewrite H. f_equal. rewrite map_map.
  rewrite <- (map_id b) at 2. apply map_ext. exact to_byte_to_N.
Qed.

End ReferenceLaws.

Lemma ref_payload_codec_correct : payload_codec_correct Reference.platform.
Proof.
  assert (Hascii : forall s, Forall (fun c => (c < 128)%N) s ->
                             Reference.ref_decode (utf8 s) = s).
  { induction s as [|c s IH]; intros H; [reflexivity|].
    inversion H as [|? ? Hc Hs]; subst. simpl.
    assert (E1 : is_high_surrogate c = false).
    { unfold is_high_surrogate. apply andb_false_iff. left. apply N.leb_gt. lia. }
    assert (E2 : is_low_surrogate c = false).
    { unfold is_low_surrogate. apply andb_false_iff. left. apply N.leb_gt. lia. }
    rewrite E1, E2. unfold utf8_code_point.
    apply N.ltb_lt in Hc. rewrite Hc. apply N.ltb_lt in Hc. simpl.
    unfold Reference.ref_decode in *. simpl.
    rewrite ReferenceLaws.to_N_to_byte by lia. now rewrite IH. }
  assert (Hun : forall t, Forall (fun c => (c < 128)%N) (Reference.unary t)).
  { induction t as [|c t IH]; simpl; [constructor|].
    apply Forall_app. split.
    - apply Forall_forall. intros x Hx. apply repeat_spec in Hx. subst. lia.
    - constructor; [lia|exact IH]. }
  assert (Hrep : forall n k s,
             Reference.un_unary k (repeat 1%N n ++ s)
             = Reference.un_unary (k + N.of_nat n) s).
  { induction n as [|n IH]; intros k s; simpl.
    - now rewrite N.add_0_r.
    - rewrite IH. f_equal. lia. }
  assert (Hinv : forall t, Reference.un_unary 0 (Reference.unary t) = Some t).
  { induction t as [|c t IH]; simpl; [reflexivity|].
    rewrite Hrep. simpl. rewrite IH. simpl. now rewrite N2Nat.id. }
  intros t c.
  cbn [JSON_parse TextDecoder_decode JSON_stringify Reference.platform].
  assert (Hs : Reference.ref_stringify (TodoList.payload_object t c)
               = (if c then 1%N else 0%N) :: Reference.unary t) by reflexivity.
  rewrite Hs, Hascii.
  - unfold Reference.ref_parse. rewrite Hinv. now destruct c.
  - constructor; [destruct c; lia|apply Hun].
Qed.

(* ------------------------------------------------------------------ *)
(** ** [DataCrypto]: encryption and decryption *)
(* ------------------------------------------------------------------ *)

Section DataCryptoFacts.
Import DataCrypto.

Variable P : Platform.
Hypothesis sodium : sodium_correct P.
Hypothesis base64 : base64_correct P.

(** What [encrypt] returns: an envelope of version 1 that records the AAD it
    was given and carries a fresh 24-byte nonce and the ciphertext. *)
Lemma encrypt_returns (this : t) (plain : bytes) (a : option jsstring)
    (w : world P) :
  List.length (key this) = crypto_aead_xchacha20poly1305_ietf_KEYBYTES ->
  exists nonce ct,
    List.length nonce = crypto_aead_xchacha20poly1305_ietf_NPUBBYTES /\
    crypto_aead_xchacha20poly1305_ietf_encrypt P plain (encode_aad a) nonce (key this)
      = Resolved ct /\
    crypto_aead_xchacha20poly1305_ietf_decrypt P ct (encode_aad a) nonce (key this)
      = Resolved plain /\
    encrypt P this plain a w =
      (Resolved {| header := {| v := 1; header_alg := ALG; header_aad := a;
                                kdf := {| saltB64 := lit "" |} |};
                   nB64 := bytesToBase64 P nonce;
                   cB64 := bytesToBase64 P ct |},
       snd (randombytes_buf P crypto_aead_xchacha20poly1305_ietf_NPUBBYTES w)).
Proof.
  intros Hk. unfold encrypt.
  pose proof (randombytes_buf_length sodium
                crypto_aead_xchacha20poly1305_ietf_NPUBBYTES w) as Hn.
  destruct (randombytes_buf P _ w) as [nonce w']. simpl in Hn.
  pose proof (aead_decrypt_encrypt sodium) as Hrt.
  destruct (Hrt plain (encode_aad a) nonce (key this) Hn Hk)
    as (ct & Henc & Hdec).
  exists nonce, ct. rewrite Henc. auto.
Qed.

(** On an envelope as [encrypt] builds it, [decrypt] is the cipher's
    decryption of the decoded nonce and ciphertext under
    [encode_aad (aad ?? env.header.aad)]. *)
Lemma decrypt_built_envelope (this : t) (a a' : option jsstring) (nonce ct : bytes) :
  decrypt P this
    {| header := {| v := 1; header_alg := ALG; header_aad := a;
                    kdf := {| saltB64 := lit "" |} |};
       nB64 := bytesToBase64 P nonce;
       cB64 := bytesToBase64 P ct |} a'
  = crypto_aead_xchacha20poly1305_ietf_decrypt P
      ct (encode_aad (nullish a' a)) nonce (key this).
Proof.
  unfold decrypt. cbn [nB64 cB64 header header_aad]. now rewrite !base64.
Qed.

(** Decryption looks at the additional data only through
    [encode_aad (aad ?? env.header.aad)]. *)
Lemma decrypt_encrypt_when (this : t) (plain : bytes) (a a' : option jsstring)
    (w : world P) :
  List.length (key this) = crypto_aead_xchacha20poly1305_ietf_KEYBYTES ->
  encode_aad (nullish a' a) = encode_aad a ->
  exists env,
    fst (encrypt P this plain a w) = Resolved env /\
    decrypt P this env a' = Resolved plain.
Proof.
  intros Hk Ha.
  destruct (encrypt_returns this plain a w Hk) as (nonce & ct & _ & _ & Hdec & ->).
  eexists. split; [reflexivity|].
  rewrite decrypt_built_envelope, Ha. exact Hdec.
Qed.

(** C1. For every plaintext [p] and every AAD string [a], decrypting the
    envelope that [encrypt(p, a)] produced, with the same key and the same
    AAD [a], returns [p]. *)
Theorem decrypt_encrypt_same_aad (this : t) (p : bytes) (a : jsstring)
    (w : world P) :
  List.length (key this) = crypto_aead_xchacha20poly1305_ietf_KEYBYTES ->
  exists env,
    fst (encrypt P this p (Some a) w) = Resolved env /\
    decrypt P this env (Some a) = Resolved p.
Proof.
  intros Hk. now apply decrypt_encrypt_when.
Qed.

(** C9. For every plaintext [p] and every AAD string [a], [decrypt] called
    with no AAD argument on the envelope of [encrypt(p, a)] returns [p]: it
    falls back to the AAD recorded in the envelope header. *)
Theorem decrypt_encrypt_omitted_aad (this : t) (p : bytes) (a : jsstring)
    (w : world P) :
  List.length (key this) = crypto_aead_xchacha20poly1305_ietf_KEYBYTES ->
  exists env,
    fst (encrypt P this p (Some a) w) = Resolved env /\
    decrypt P this env None = Resolved p.
Proof.
  intros Hk. now apply decrypt_encrypt_when.
Qed.

(** Two AAD strings with the same UTF-8 form are the same AAD to the
    cipher: under any lawful platform the envelope of one decrypts under
    the other. *)
Lemma decrypt_encrypt_same_encoding (this : t) (p : bytes) (a a' : jsstring)
    (w : world P) :
  List.length (key this) = crypto_aead_xchacha20poly1305_ietf_KEYBYTES ->
  utf8 a' = utf8 a -> a <> [] -> a' <> [] ->
  exists env,
    fst (encrypt P this p (Some a) w) = Resolved env /\
    decrypt P this env (Some a') = Resolved p.
Proof.
  intros Hk Hu Ha Ha'. apply decrypt_encrypt_when; [exact Hk|].
  destruct a, a'; try congruence.
  unfold nullish, encode_aad, truthy, option_map. now rewrite Hu.
Qed.

Hypothesis binds : sodium_binds_ad P.

(** C2 (amended). For every plaintext [p], every AAD [a] given to [encrypt]
    and every AAD [a'] given to [decrypt]: when the additional data that
    [decrypt] passes to the cipher (the UTF-8 form of [a' ?? a], nothing for
    an empty string) differs from the additional data bound at encryption,
    decryption of the envelope fails. *)
Theorem decrypt_encrypt_other_aad (this : t) (p : bytes) (a a' : option jsstring)
    (w : world P) :
  List.length (key this) = crypto_aead_xchacha20poly1305_ietf_KEYBYTES ->
  ad_bytes (encode_aad (nullish a' a)) <> ad_bytes (encode_aad a) ->
  exists env,
    fst (encrypt P this p a w) = Resolved env /\
    fails (decrypt P this env a').
Proof.
  intros Hk Hneq.
  destruct (encrypt_returns this p a w Hk) as (nonce & ct & _ & Henc & _ & ->).
  eexists. split; [reflexivity|].
  rewrite decrypt_built_envelope.
  exact (binds _ _ _ _ _ Henc Hneq).
Qed.

End DataCryptoFacts.

(** Strings of ASCII characters are told apart by their UTF-8 form. *)
Lemma utf8_ascii_map (s : jsstring) :
  Forall (fun c => (c < 128)%N) s -> utf8 s = map to_byte s.
Proof.
  induction s as [|c s IH]; intros H; [reflexivity|].
  inversion H as [|? ? Hc Hs]; subst. simpl.
  assert (E1 : is_high_surrogate c = false).
  { unfold is_high_surrogate. apply andb_false_iff. left. apply N.leb_gt. lia. }
  assert (E2 : is_low_surrogate c = false).
  { unfold is_low_surrogate. apply andb_false_iff. left. apply N.leb_gt. lia. }
  rewrite E1, E2. unfold utf8_code_point.
  apply N.ltb_lt in Hc. rewrite Hc. simpl. now rewrite IH.
Qed.

Lemma utf8_ascii_injective (s s' : jsstring) :
  Forall (fun c => (c < 128)%N) s -> Forall (fun c => (c < 128)%N) s' ->
  utf8 s = utf8 s' -> s = s'.
Proof.
  intros H H' E. rewrite !utf8_ascii_map in E by assumption.
  revert s' H' E. induction H as [|c s Hc Hs IH]; intros [|c' s'] H' E;
    try discriminate; [reflexivity|].
  inversion H' as [|? ? Hc' Hs']; subst. simpl in E. injection E as E0 E.
  f_equal; [|now apply IH].
  apply (f_equal Byte.to_N) in E0.
  rewrite !ReferenceLaws.to_N_to_byte in E0 by lia. exact E0.
Qed.

(** For distinct non-empty ASCII AAD strings the claim holds as written. *)
Lemma decrypt_encrypt_other_ascii_aad (P : Platform)
    (this : DataCrypto.t) (p : bytes) (a a' : jsstring) (w : world P) :
  sodium_correct P -> base64_correct P -> sodium_binds_ad P ->
  List.length (DataCrypto.key this) = crypto_aead_xchacha20poly1305_ietf_KEYBYTES ->
  Forall (fun c => (c < 128)%N) a -> Forall (fun c => (c < 128)%N) a' ->
  a' <> a ->
  exists env,
    fst (DataCrypto.encrypt P this p (Some a) w) = Resolved env /\
    fails (DataCrypto.decrypt P this env (Some a')).
Proof.
  intros Hs Hb Hbind Hk Ha Ha' Hneq.
  destruct (encrypt_returns Hs this p (Some a) w Hk)
    as (nonce & ct & _ & Henc & _ & ->).
  eexists. split; [reflexivity|].
  rewrite (decrypt_built_envelope Hb).
  apply (Hbind _ _ _ _ _ _ Henc).
  assert (Hu : forall s, Forall (fun c => (c < 128)%N) s ->
                         ad_bytes (DataCrypto.encode_aad (Some s)) = map to_byte s).
  { intros [|c s] Hcs; unfold DataCrypto.encode_aad, truthy, option_map, ad_bytes;
      [reflexivity|now rewrite utf8_ascii_map]. }
  unfold nullish. rewrite !Hu by assumption. intros E. apply Hneq.
  rewrite <- !utf8_ascii_map in E by assumption.
  now apply utf8_ascii_injective.
Qed.

Lemma decrypt_encrypt_same_aad_witness :
  List.length Reference.key32 = crypto_aead_xchacha20poly1305_ietf_KEYBYTES /\
  exists env,
    fst (DataCrypto.encrypt Reference.platform {| DataCrypto.key := Reference.key32 |}
           [x68; x69] (Some (lit "todo-v1")) Reference.w0) = Resolved env /\
    DataCrypto.decrypt Reference.platform {| DataCrypto.key := Reference.key32 |}
           env (Some (lit "todo-v1")) = Resolved [x68; x69].
Proof.
  split; [reflexivity|].
  apply (@decrypt_encrypt_same_aad Reference.platform
           ReferenceLaws.ref_sodium_correct ReferenceLaws.ref_base64_correct).
  reflexivity.
Defined.

Lemma decrypt_encrypt_omitted_aad_witness :
  List.length Reference.key32 = crypto_aead_xchacha20poly1305_ietf_KEYBYTES /\
  exists env,
    fst (DataCrypto.encrypt Reference.platform {| DataCrypto.key := Reference.key32 |}
           [x68; x69] (Some (lit "todo-v1")) Reference.w0) = Resolved env /\
    DataCrypto.decrypt Reference.platform {| DataCrypto.key := Reference.key32 |}
           env None = Resolved [x68; x69].
Proof.
  split; [reflexivity|].
  apply (@decrypt_encrypt_omitted_aad Reference.platform
           ReferenceLaws.ref_sodium_correct ReferenceLaws.ref_base64_correct).
  reflexivity.
Defined.

(** C2 fails as stated: the strings "\uD800" and "\uD801" are different AAD
    values, yet [TextEncoder] writes both as EF BF BD, so the envelope
    encrypted under the first decrypts under the second. *)
Lemma decrypt_encrypt_other_aad_counterexample :
  [0xD801%N] <> [0xD800%N] /\
  exists env,
    fst (DataCrypto.encrypt Reference.platform {| DataCrypto.key := Reference.key32 |}
           [x68; x69] (Some [0xD800%N]) Reference.w0) = Resolved env /\
    DataCrypto.decrypt Reference.platform {| DataCrypto.key := Reference.key32 |}
           env (Some [0xD801%N]) = Resolved [x68; x69].
Proof.
  split; [discriminate|].
  apply (@decrypt_encrypt_same_encoding Reference.platform
           ReferenceLaws.ref_sodium_correct ReferenceLaws.ref_base64_correct);
    [reflexivity|reflexivity|discriminate|discriminate].
Qed.

Lemma decrypt_encrypt_other_aad_witness :
  List.length Reference.key32 = crypto_aead_xchacha20poly1305_ietf_KEYBYTES /\
  exists env,
    fst (DataCrypto.encrypt Reference.platform {| DataCrypto.key := Reference.key32 |}
           [x68; x69] (Some (lit "todo-v1")) Reference.w0) = Resolved env /\
    fails (DataCrypto.decrypt Reference.platform {| DataCrypto.key := Reference.key32 |}
           env (Some (lit "todo-v2"))).
Proof.
  split; [reflexivity|].
  apply (@decrypt_encrypt_other_aad Reference.platform
           ReferenceLaws.ref_sodium_correct ReferenceLaws.ref_base64_correct
           ReferenceLaws.ref_sodium_binds_ad).
  - reflexivity.
  - vm_compute. discriminate.
Defined.

(* ------------------------------------------------------------------ *)
(** ** Envelope and columns *)
(* ------------------------------------------------------------------ *)

(** C3. For every valid cipher envelope [e] (an envelope of the one version
    the type admits, [v = 1]), flattening [e] into the columns
    (alg, aad, nonce_b64, cipher_b64, kdf_salt_b64) and rebuilding it with
    [columnsToEnvelope] gives [e] again. *)
Theorem columnsToEnvelope_envelopeToColumns (e : CipherEnvelope) :
  valid_envelope e ->
  columnsToEnvelope (envelopeToColumns e) = e.
Proof.
  destruct e as [[ver a d [salt]] n c]. unfold valid_envelope. simpl.
  intros ->. unfold columnsToEnvelope, envelopeToColumns. simpl.
  now destruct d.
Qed.

Lemma columnsToEnvelope_envelopeToColumns_witness :
  columnsToEnvelope
    (envelopeToColumns
       {| header := {| v := 1; header_alg := DataCrypto.ALG;
                       header_aad := Some (lit "todo-v1");
                       kdf := {| saltB64 := lit "" |} |};
          nB64 := lit "bm9uY2U="; cB64 := lit "Y2lwaGVy" |})
  = {| header := {| v := 1; header_alg := DataCrypto.ALG;
                    header_aad := Some (lit "todo-v1");
                    kdf := {| saltB64 := lit "" |} |};
       nB64 := lit "bm9uY2U="; cB64 := lit "Y2lwaGVy" |}.
Proof.
  apply columnsToEnvelope_envelopeToColumns. reflexivity.
Defined.

(** Every envelope that [columnsToEnvelope] builds is valid, and so is every
    envelope that [DataCrypto.encrypt] returns. *)
Lemma columnsToEnvelope_valid (c : EncryptedColumns) :
  valid_envelope (columnsToEnvelope c).
Proof. reflexivity. Qed.

Lemma encrypt_valid (P : Platform) (this : DataCrypto.t) (p : bytes)
    (a : option jsstring) (w : world P) (env : CipherEnvelope) :
  fst (DataCrypto.encrypt P this p a w) = Resolved env -> valid_envelope env.
Proof.
  unfold DataCrypto.encrypt.
  destruct (randombytes_buf P _ w) as [nonce w'].
  destruct (crypto_aead_xchacha20poly1305_ietf_encrypt P _ _ _ _); simpl;
    intros H; [|discriminate].
  injection H as <-. reflexivity.
Qed.

(** The columns [addTodo] and [toggleCompleted] write for an envelope they
    encrypted under [aad_todo] are its flattening. *)
Lemma envelope_params_are_envelopeToColumns (P : Platform) (this : DataCrypto.t)
    (p : bytes) (w : world P) (env : CipherEnvelope) :
  fst (DataCrypto.encrypt P this p (Some TodoList.aad_todo) w) = Resolved env ->
  TodoList.envelope_params env = envelopeToColumns env.
Proof.
  unfold DataCrypto.encrypt.
  destruct (randombytes_buf P _ w) as [nonce w'].
  destruct (crypto_aead_xchacha20poly1305_ietf_encrypt P _ _ _ _); simpl;
    intros H; [|discriminate].
  injection H as <-. reflexivity.
Qed.

(* ------------------------------------------------------------------ *)
(** ** The columns of [todos] *)
(* ------------------------------------------------------------------ *)

(** C4 fails as stated: [todos] also has the column [created_at], which is
    neither an implicit column nor an envelope column. *)
Lemma todos_columns_counterexample :
  In "created_at"%string (map fst todos_Table) /\
  In "created_at"%string (map column_name CREATE_TABLE_SQL) /\
  ~ In "created_at"%string (implicit_columns ++ envelope_columns).
Proof.
  repeat split.
  - simpl. tauto.
  - simpl. tauto.
  - simpl. intros H. repeat (destruct H as [H|H]; [discriminate|]). exact H.
Qed.

(** C4 (amended). The persisted encrypted table [todos] carries exactly the
    four implicit columns (id, user_id, bucket_id, updated_at), the five
    envelope columns (alg, aad, nonce_b64, cipher_b64, kdf_salt_b64) and
    [created_at], each once, and no other column; the schema table, the
    CREATE TABLE statement and the INSERT statement agree on them. *)
Theorem todos_columns :
  map column_name CREATE_TABLE_SQL = map fst todos_Table /\
  INSERT_SQL_columns = map fst todos_Table /\
  NoDup (map fst todos_Table) /\
  forall c : string,
    In c (map fst todos_Table) <->
    In c (implicit_columns ++ envelope_columns ++ ["created_at"%string]).
Proof.
  split; [reflexivity|]. split; [reflexivity|]. split.
  - simpl. repeat constructor; simpl;
      intros H; repeat (destruct H as [H|H]; [discriminate|]); exact H.
  - intros c. simpl. tauto.
Qed.

(* ------------------------------------------------------------------ *)
(** ** The optional-bucket query *)
(* ------------------------------------------------------------------ *)

(** With the empty string as bucket parameter the condition is
    [bucket_id = bucket_id], which is true on a bucket and unknown on
    [NULL]. *)
Lemma optional_bucket_condition (b : option jsstring) :
  sql_eq (COALESCE (NULLIF (Some (lit "")) (Some (lit ""))) b) b
  = match b with Some _ => Some true | None => None end.
Proof.
  destruct b as [s|]; simpl; [|reflexivity].
  unfold sql_eq, COALESCE, NULLIF, sql_eq. simpl. now rewrite code_eqb_refl.
Qed.

(** The optional-bucket query with [""] selects the user's rows that have
    a bucket. *)
Lemma optional_bucket_empty_parameter (todos : list TodoRow) (u : jsstring) :
  SELECT_BY_USER_OPTIONAL_BUCKET_SQL todos (Some u) (Some (lit ""))
  = SELECT_BY_USER_SQL
      (filter (fun r => match bucket_id r with Some _ => true | None => false end) todos)
      (Some u).
Proof.
  unfold SELECT_BY_USER_OPTIONAL_BUCKET_SQL, SELECT_BY_USER_SQL. f_equal.
  induction todos as [|r todos IH]; [reflexivity|].
  cbn [filter]. rewrite optional_bucket_condition, IH.
  destruct (bucket_id r); cbn [filter].
  - destruct (sql_eq (Some (user_id r)) (Some u)) as [[|]|]; reflexivity.
  - destruct (sql_eq (Some (user_id r)) (Some u)) as [[|]|]; reflexivity.
Qed.

(** On a table where every row has a bucket the two queries agree. *)
Lemma optional_bucket_agrees_without_null (todos : list TodoRow) (u : jsstring) :
  (forall r, In r todos -> bucket_id r <> None) ->
  SELECT_BY_USER_OPTIONAL_BUCKET_SQL todos (Some u) (Some (lit ""))
  = SELECT_BY_USER_SQL todos (Some u).
Proof.
  intros H. rewrite optional_bucket_empty_parameter. f_equal.
  induction todos as [|r todos IH]; [reflexivity|].
  cbn [filter]. destruct (bucket_id r) eqn:E.
  - f_equal. apply IH. intros r' Hr'. apply H. now right.
  - exfalso. apply (H r); [now left|exact E].
Qed.

(** C10. On a table holding one row of user [user-1] whose [bucket_id] is
    [NULL], [SELECT_BY_USER_SQL] with [[user-1]] returns the row and
    [SELECT_BY_USER_OPTIONAL_BUCKET_SQL] with [[user-1, ""]] returns none:
    [bucket_id = bucket_id] is unknown on [NULL], not a tautology. *)
Theorem optional_bucket_drops_null_bucket :
  SELECT_BY_USER_SQL [row_without_bucket] (Some (lit "user-1"))
    = [row_without_bucket] /\
  SELECT_BY_USER_OPTIONAL_BUCKET_SQL [row_without_bucket]
    (Some (lit "user-1")) (Some (lit "")) = [].
Proof.
  split; reflexivity.
Qed.

(* ------------------------------------------------------------------ *)
(** ** The decrypt effect of [TodoList] *)
(* ------------------------------------------------------------------ *)

Section DecryptEffect.
Import TodoList.

Variable P : Platform.
Variable crypto : CryptoProvider.

Lemma loop_body_fold (dc : option DataCrypto.t) (rows : list TodoRow) (acc : Loop) :
  fold_left (loop_body P crypto dc) rows acc
  = {| serverItems := serverItems acc ++ flat_map (projection P crypto dc) rows;
       ok := ok acc + List.length (flat_map (projection P crypto dc) rows);
       fail := fail acc + List.length (filter (caught P crypto dc) rows) |}.
Proof.
  revert acc. induction rows as [|r rows IH]; intros acc; cbn [fold_left flat_map filter].
  - destruct acc. simpl. now rewrite app_nil_r, !Nat.add_0_r.
  - rewrite IH. unfold loop_body.
    destruct (decrypt_row P crypto dc r) as [[t|]|e] eqn:E.
    + assert (Hp : projection P crypto dc r = [t])
        by (unfold projection; now rewrite E).
      assert (Hc : caught P crypto dc r = false)
        by (unfold caught; now rewrite E).
      rewrite Hp, Hc. cbn [serverItems ok fail app List.length].
      rewrite <- app_assoc. cbn [app]. f_equal; lia.
    + assert (Hp : projection P crypto dc r = [])
        by (unfold projection; now rewrite E).
      assert (Hc : caught P crypto dc r = false)
        by (unfold caught; now rewrite E).
      rewrite Hp, Hc. reflexivity.
    + assert (Hp : projection P crypto dc r = [])
        by (unfold projection; now rewrite E).
      assert (Hc : caught P crypto dc r = true)
        by (unfold caught; now rewrite E).
      rewrite Hp, Hc. cbn [serverItems ok fail app List.length]. f_equal; lia.
Qed.

(** The loop is the concatenation of what each row projects to. *)
Lemma decrypt_rows_spec (dc : option DataCrypto.t) (rows : list TodoRow) :
  decrypt_rows P crypto dc rows
  = {| serverItems := flat_map (projection P crypto dc) rows;
       ok := List.length (flat_map (projection P crypto dc) rows);
       fail := List.length (filter (caught P crypto dc) rows) |}.
Proof.
  unfold decrypt_rows. now rewrite loop_body_fold.
Qed.

(** C6. In the loop over a fetched batch, a row whose decryption throws
    does not stop the loop: for every batch and every position of a failing
    row, the rows before and after it are all processed, the failure is
    counted, and every row that decrypts is projected into [serverItems] and
    from there into the list the effect sets. *)
Theorem decrypt_rows_continues_past_failure
    (st : State) (isFetching : bool) (before after : list TodoRow) (bad : TodoRow) :
  fails (decrypt_row P crypto (dataCrypto st) bad) ->
  let run := decrypt_rows P crypto (dataCrypto st) in
  let batch := before ++ bad :: after in
  serverItems (run batch) = serverItems (run before) ++ serverItems (run after) /\
  ok (run batch) = ok (run before) + ok (run after) /\
  fail (run batch) = fail (run before) + 1 + fail (run after) /\
  items (decrypt_effect P crypto (Some batch) isFetching st)
    = merge_items (serverItems (run batch)) (items st) /\
  forall r t,
    In r batch ->
    decrypt_row P crypto (dataCrypto st) r = Resolved (Some t) ->
    In t (serverItems (run batch)) /\
    In t (items (decrypt_effect P crypto (Some batch) isFetching st)).
Proof.
  intros Hbad run batch. subst run batch.
  assert (Hp : projection P crypto (dataCrypto st) bad = []).
  { unfold projection. destruct (decrypt_row _ _ _ bad); [contradiction|reflexivity]. }
  assert (Hc : caught P crypto (dataCrypto st) bad = true).
  { unfold caught. destruct (decrypt_row _ _ _ bad); [contradiction|reflexivity]. }
  assert (Heff : items (decrypt_effect P crypto (Some (before ++ bad :: after)) isFetching st)
                 = merge_items
                     (serverItems (decrypt_rows P crypto (dataCrypto st) (before ++ bad :: after)))
                     (items st)).
  { unfold decrypt_effect. rewrite length_app. cbn [List.length].
    replace (Nat.eqb (List.length before + S (List.length after)) 0) with false
      by (symmetry; apply Nat.eqb_neq; lia).
    rewrite andb_false_r. reflexivity. }
  rewrite !decrypt_rows_spec in *. cbn [serverItems ok fail] in *.
  assert (Hfm : flat_map (projection P crypto (dataCrypto st)) (before ++ bad :: after)
                = flat_map (projection P crypto (dataCrypto st)) before ++
                  flat_map (projection P crypto (dataCrypto st)) after).
  { rewrite flat_map_app. cbn [flat_map]. now rewrite Hp. }
  rewrite Hfm in *. rewrite filter_app. cbn [filter]. rewrite Hc.
  rewrite !length_app. cbn [List.length].
  assert (Hin : forall r t,
             In r (before ++ bad :: after) ->
             decrypt_row P crypto (dataCrypto st) r = Resolved (Some t) ->
             In t (flat_map (projection P crypto (dataCrypto st)) before ++
                   flat_map (projection P crypto (dataCrypto st)) after)).
  { intros r t Hr Ht.
    assert (Hrt : In t (projection P crypto (dataCrypto st) r))
      by (unfold projection; rewrite Ht; now left).
    apply in_app_or in Hr. apply in_or_app.
    destruct Hr as [Hr|[<-|Hr]].
    - left. apply in_flat_map. eauto.
    - rewrite Hp in Hrt. contradiction.
    - right. apply in_flat_map. eauto. }
  split; [reflexivity|]. split; [lia|]. split; [lia|]. split; [exact Heff|].
  intros r t Hr Ht. split; [now apply (Hin r)|].
  rewrite Heff. unfold merge_items. apply in_or_app. right. now apply (Hin r).
Qed.

End DecryptEffect.

Lemma decrypt_rows_continues_past_failure_witness :
  fails (TodoList.decrypt_row Reference.platform Reference.locked_provider
           (TodoList.dataCrypto (TodoList.state Scenario.s1)) Scenario.undecryptable) /\
  TodoList.serverItems
    (TodoList.decrypt_rows Reference.platform Reference.locked_provider
       (TodoList.dataCrypto (TodoList.state Scenario.s1))
       (TodoList.todos Scenario.s1 ++ Scenario.undecryptable :: TodoList.todos Scenario.s1))
  = TodoList.serverItems
      (TodoList.decrypt_rows Reference.platform Reference.locked_provider
         (TodoList.dataCrypto (TodoList.state Scenario.s1)) (TodoList.todos Scenario.s1))
    ++ TodoList.serverItems
      (TodoList.decrypt_rows Reference.platform Reference.locked_provider
         (TodoList.dataCrypto (TodoList.state Scenario.s1)) (TodoList.todos Scenario.s1)).
Proof.
  assert (H : fails (TodoList.decrypt_row Reference.platform Reference.locked_provider
                       (TodoList.dataCrypto (TodoList.state Scenario.s1))
                       Scenario.undecryptable))
    by (vm_compute; exact I).
  split; [exact H|].
  exact (proj1 (@decrypt_rows_continues_past_failure Reference.platform
                  Reference.locked_provider (TodoList.state Scenario.s1) false
                  (TodoList.todos Scenario.s1) (TodoList.todos Scenario.s1)
                  Scenario.undecryptable H)).
Defined.

(** The batch of the witness: two rows decrypt, the one between them is
    counted as failed. *)
Example batch_with_a_failing_row :
  let run :=
    TodoList.decrypt_rows Reference.platform Reference.locked_provider
      (TodoList.dataCrypto (TodoList.state Scenario.s1))
      (TodoList.todos Scenario.s1 ++ Scenario.undecryptable :: TodoList.todos Scenario.s1) in
  map TodoList.text (TodoList.serverItems run) = [lit "a"; lit "a"] /\
  TodoList.ok run = 2 /\ TodoList.fail run = 1.
Proof. vm_compute. repeat split. Qed.

Section LockedList.
Import TodoList.

Variable P : Platform.
Variable crypto : CryptoProvider.



End LockedList.



(* ------------------------------------------------------------------ *)
(** ** Insert, then update *)
(* ------------------------------------------------------------------ *)

Lemma UPDATE_SQL_last (rows : list TodoRow) (r : TodoRow) (c : EncryptedColumns)
    (now : jsstring) :
  (forall r', In r' rows -> id r' <> id r) ->
  UPDATE_SQL (rows ++ [r]) c now (id r) (user_id r)
  = rows ++ [{| id := id r; user_id := user_id r; bucket_id := bucket_id r;
                columns := c; created_at := created_at r; updated_at := now |}].
Proof.
  intros Hfresh. unfold UPDATE_SQL. rewrite map_app. cbn [map].
  rewrite !code_eqb_refl. cbn [andb]. f_equal.
  rewrite <- (map_id rows) at 2. apply map_ext_in. intros r' Hr'.
  apply Hfresh in Hr'. apply code_eqb_neq in Hr'. now rewrite Hr'.
Qed.

Section InsertThenUpdate.
Import TodoList.

Variable P : Platform.
Hypothesis sodium : sodium_correct P.
Hypothesis base64 : base64_correct P.
Hypothesis codec : payload_codec_correct P.

Lemma parse_plain_payload (t : jsstring) (c : bool) :
  parse_plain P (utf8 (JSON_stringify P (payload_object t c))) = (t, c).
Proof.
  unfold parse_plain. now rewrite codec.
Qed.

(** A row holding the envelope of a payload decrypts, under the key that
    encrypted it, to that payload. *)
Lemma decrypt_row_written (crypto : CryptoProvider) (dc : DataCrypto.t)
    (t : jsstring) (c : bool) (w : world P) (env : CipherEnvelope) (r : TodoRow) :
  List.length (DataCrypto.key dc) = crypto_aead_xchacha20poly1305_ietf_KEYBYTES ->
  fst (DataCrypto.encrypt P dc (utf8 (JSON_stringify P (payload_object t c)))
         (Some aad_todo) w) = Resolved env ->
  columns r = envelope_params env ->
  row_envelope r = env /\
  DataCrypto.decrypt P dc env (Some aad_todo)
    = Resolved (utf8 (JSON_stringify P (payload_object t c))) /\
  decrypt_row P crypto (Some dc) r
    = Resolved (Some {| todo_id := id r; text := t; completed := c;
                        env := env; synced := true |}).
Proof.
  intros Hk Henc Hcols.
  destruct (decrypt_encrypt_when sodium base64 dc
              (utf8 (JSON_stringify P (payload_object t c)))
              (Some aad_todo) (Some aad_todo) w Hk eq_refl) as (env' & Henc' & Hdec).
  rewrite Henc in Henc'. injection Henc' as <-.
  destruct (encrypt_returns sodium dc (utf8 (JSON_stringify P (payload_object t c)))
              (Some aad_todo) w Hk) as (nonce & ct & _ & _ & _ & Hshape).
  rewrite Hshape in Henc. cbn [fst] in Henc. injection Henc as Henv.
  assert (Hrow : row_envelope r = env).
  { unfold row_envelope. rewrite Hcols, <- Henv. reflexivity. }
  split; [exact Hrow|]. split; [exact Hdec|].
  unfold decrypt_row. rewrite Hrow, Hcols.
  replace (includes (header_alg (header env)) (lit "/raw")) with true
    by (rewrite <- Henv; reflexivity).
  cbn [envelope_params aad nullish]. rewrite Hdec, parse_plain_payload. reflexivity.
Qed.

(** What [addTodo] does when the list is unlocked, the user is signed in, the
    input is not blank and the identifier it draws is new. *)
Lemma addTodo_inserts (s : System P) (dc : DataCrypto.t) (u : jsstring)
    (env : CipherEnvelope) (w1 w2 w3 : world P) (new_id now : jsstring) :
  dataCrypto (state s) = Some dc ->
  userId (state s) = Some u -> u <> [] ->
  trim (text_input (state s)) <> [] ->
  DataCrypto.encrypt P dc
    (utf8 (JSON_stringify P (payload_object (trim (text_input (state s))) false)))
    (Some aad_todo) (outside s) = (Resolved env, w1) ->
  cryptoRandomId P w1 = (new_id, w2) ->
  Date_toISOString P w2 = (now, w3) ->
  (forall r, In r (todos s) -> id r <> new_id) ->
  exists st1,
    items st1 = {| todo_id := new_id; text := trim (text_input (state s));
                   completed := false; env := env; synced := true |}
                :: map (fun t => if code_eqb (todo_id t) new_id
                                 then {| todo_id := todo_id t; text := text t;
                                         completed := completed t; env := TodoList.env t;
                                         synced := true |}
                                 else t) (items (state s)) /\
    dataCrypto st1 = Some dc /\ userId st1 = Some u /\
    addTodo s =
      (Resolved tt,
       {| state := st1;
          todos := todos s ++
                   [{| id := new_id; user_id := u; bucket_id := or_null (bucketId (state s));
                       columns := envelope_params env; created_at := now; updated_at := now |}];
          outside := w3 |}).
Proof.
  intros Hdc Hu Hne Ha Henc Hid Hnow Hfresh.
  destruct u as [|u0 u']; [congruence|].
  unfold addTodo.
  destruct (trim (text_input (state s))) as [|a0 a'] eqn:Ea; [congruence|].
  cbn [truthy negb]. rewrite Hdc, Henc, Hid, Hu, Hnow.
  unfold INSERT_SQL. cbn [id].
  replace (existsb (fun r' => code_eqb (id r') new_id) (todos s)) with false.
  - eexists. split; [|split; [|split; [|reflexivity]]].
    + cbn [setItems setText items map todo_id]. now rewrite code_eqb_refl.
    + cbn [setItems setText dataCrypto]. exact Hdc.
    + cbn [setItems setText userId]. exact Hu.
  - symmetry. apply not_true_is_false. intros H.
    apply existsb_exists in H as (r & Hr & E). apply code_eqb_eq in E.
    now apply (Hfresh r).
Qed.

(** What [toggleCompleted] does on an item of the list. *)
Lemma toggleCompleted_updates (s : System P) (dc : DataCrypto.t) (u p_id : jsstring)
    (t : Todo) (env : CipherEnvelope) (w1 w2 : world P) (now : jsstring) :
  find (fun x => code_eqb (todo_id x) p_id) (items (state s)) = Some t ->
  dataCrypto (state s) = Some dc ->
  userId (state s) = Some u -> u <> [] ->
  DataCrypto.encrypt P dc
    (utf8 (JSON_stringify P (payload_object (text t) (negb (completed t)))))
    (Some aad_todo) (outside s) = (Resolved env, w1) ->
  Date_toISOString P w1 = (now, w2) ->
  exists st1,
    toggleCompleted p_id s =
      (Resolved tt,
       {| state := st1;
          todos := UPDATE_SQL (todos s) (envelope_params env) now p_id u;
          outside := w2 |}).
Proof.
  intros Hfind Hdc Hu Hne Henc Hnow.
  destruct u as [|u0 u']; [congruence|].
  unfold toggleCompleted. rewrite Hfind, Hdc, Henc, Hu, Hnow.
  eexists. reflexivity.
Qed.

(** C5 (amended). For every row id that [addTodo] draws: after the insert of
    the content [{text: a, completed: false}] followed by the update the
    list offers on that id ([toggleCompleted], which keeps the text and flips
    [completed]), the stored envelope decrypts to the updated content
    [{text: a, completed: true}] and no longer to the inserted one; the
    update re-encrypts the full content, text and completed together, into a
    new envelope that replaces all envelope columns; [created_at] keeps the
    time of the insert and [updated_at] is the reading of the clock taken
    during the update (later than the insert's when the clock advanced). *)
Theorem addTodo_then_toggleCompleted
    (crypto : CryptoProvider) (s : System P) (dc : DataCrypto.t) (u : jsstring) :
  dataCrypto (state s) = Some dc ->
  List.length (DataCrypto.key dc) = crypto_aead_xchacha20poly1305_ietf_KEYBYTES ->
  userId (state s) = Some u -> u <> [] ->
  trim (text_input (state s)) <> [] ->
  (forall r, In r (todos s) ->
     id r <> fst (cryptoRandomId P
                    (snd (randombytes_buf P crypto_aead_xchacha20poly1305_ietf_NPUBBYTES
                            (outside s))))) ->
  exists s1 s2 row1 row2,
    addTodo s = (Resolved tt, s1) /\
    todos s1 = todos s ++ [row1] /\
    toggleCompleted (id row1) s1 = (Resolved tt, s2) /\
    todos s2 = todos s ++ [row2] /\
    id row2 = id row1 /\
    decrypt_row P crypto (Some dc) row1
      = Resolved (Some {| todo_id := id row1; text := trim (text_input (state s));
                          completed := false; env := row_envelope row1;
                          synced := true |}) /\
    decrypt_row P crypto (Some dc) row2
      = Resolved (Some {| todo_id := id row1; text := trim (text_input (state s));
                          completed := true; env := row_envelope row2;
                          synced := true |}) /\
    DataCrypto.decrypt P dc (row_envelope row2) (Some aad_todo)
      = Resolved (utf8 (JSON_stringify P
                          (payload_object (trim (text_input (state s))) true))) /\
    created_at row2 = created_at row1 /\
    updated_at row1 = created_at row1 /\
    updated_at row2
      = fst (Date_toISOString P
               (snd (randombytes_buf P crypto_aead_xchacha20poly1305_ietf_NPUBBYTES
                       (outside s1)))).
Proof.
  intros Hdc Hk Hu Hne Ha Hfresh.
  set (a := trim (text_input (state s))) in *.
  (* the insert *)
  destruct (encrypt_returns sodium dc (utf8 (JSON_stringify P (payload_object a false)))
              (Some aad_todo) (outside s) Hk) as (n1 & c1 & _ & _ & _ & Henc1).
  set (w1 := snd (randombytes_buf P crypto_aead_xchacha20poly1305_ietf_NPUBBYTES (outside s))) in *.
  destruct (cryptoRandomId P w1) as [new_id w2] eqn:Hid. cbn [fst] in Hfresh.
  destruct (Date_toISOString P w2) as [now1 w3] eqn:Hnow1.
  destruct (addTodo_inserts s Hdc Hu Hne Ha Henc1 Hid Hnow1 Hfresh)
    as (st1 & Hitems & Hdc1 & Hu1 & Hadd).
  (* the update *)
  destruct (encrypt_returns sodium dc (utf8 (JSON_stringify P (payload_object a true)))
              (Some aad_todo) w3 Hk) as (n2 & c2 & _ & _ & _ & Henc2).
  set (w4 := snd (randombytes_buf P crypto_aead_xchacha20poly1305_ietf_NPUBBYTES w3)) in *.
  destruct (Date_toISOString P w4) as [now2 w5] eqn:Hnow2.
  match type of Henc1 with _ = (Resolved ?e, _) => set (env1 := e) in * end.
  match type of Henc2 with _ = (Resolved ?e, _) => set (env2 := e) in * end.
  set (row1 := {| id := new_id; user_id := u; bucket_id := or_null (bucketId (state s));
                  columns := envelope_params env1; created_at := now1; updated_at := now1 |}) in *.
  set (s1 := {| state := st1; todos := todos s ++ [row1]; outside := w3 |}) in *.
  assert (Hfind : find (fun x => code_eqb (todo_id x) new_id) (items (state s1))
                  = Some {| todo_id := new_id; text := a; completed := false;
                            env := env1; synced := true |}).
  { cbn [s1 state]. rewrite Hitems. cbn [find todo_id]. now rewrite code_eqb_refl. }
  destruct (@toggleCompleted_updates s1 dc u new_id _ env2 w4 w5 now2
              Hfind Hdc1 Hu1 Hne Henc2 Hnow2) as (st2 & Htoggle).
  assert (Hupd : UPDATE_SQL (todos s ++ [row1]) (envelope_params env2) now2 new_id u
                 = todos s ++ [{| id := new_id; user_id := u;
                                  bucket_id := or_null (bucketId (state s));
                                  columns := envelope_params env2;
                                  created_at := now1; updated_at := now2 |}]).
  { apply (@UPDATE_SQL_last (todos s) row1 (envelope_params env2) now2). exact Hfresh. }
  cbn [s1 todos] in Htoggle. rewrite Hupd in Htoggle.
  exists s1, {| state := st2;
                todos := todos s ++ [{| id := new_id; user_id := u;
                                        bucket_id := or_null (bucketId (state s));
                                        columns := envelope_params env2;
                                        created_at := now1; updated_at := now2 |}];
                outside := w5 |}, row1,
         {| id := new_id; user_id := u; bucket_id := or_null (bucketId (state s));
            columns := envelope_params env2; created_at := now1; updated_at := now2 |}.
  cbn [todos id created_at updated_at row1 s1 outside].
  assert (H1 := @decrypt_row_written crypto dc a false (outside s) env1 row1 Hk
                  (f_equal fst Henc1) eq_refl).
  assert (H2 := @decrypt_row_written crypto dc a true w3 env2
                  {| id := new_id; user_id := u; bucket_id := or_null (bucketId (state s));
                     columns := envelope_params env2; created_at := now1; updated_at := now2 |}
                  Hk (f_equal fst Henc2) eq_refl).
  destruct H1 as (Hr1 & _ & Hd1). destruct H2 as (Hr2 & Hp2 & Hd2).
  fold w4. rewrite Hnow2. cbn [fst].
  rewrite Hr1, Hr2.
  repeat split; try reflexivity; assumption.
Qed.

End InsertThenUpdate.

Lemma addTodo_then_toggleCompleted_witness :
  TodoList.dataCrypto (TodoList.state Scenario.s0)
    = Some {| DataCrypto.key := Reference.key32 |} /\
  trim (TodoList.text_input (TodoList.state Scenario.s0)) = lit "a" /\
  exists s1 s2 row1 row2,
    TodoList.addTodo Scenario.s0 = (Resolved tt, s1) /\
    TodoList.toggleCompleted (id row1) s1 = (Resolved tt, s2) /\
    TodoList.todos s2 = [row2] /\
    TodoList.decrypt_row Reference.platform Reference.locked_provider
      (Some {| DataCrypto.key := Reference.key32 |}) row2
    = Resolved (Some {| TodoList.todo_id := id row1;
                        TodoList.text := lit "a";
                        TodoList.completed := true;
                        TodoList.env := TodoList.row_envelope row2;
                        TodoList.synced := true |}).
Proof.
  split; [reflexivity|]. split; [reflexivity|].
  destruct (@addTodo_then_toggleCompleted Reference.platform
              ReferenceLaws.ref_sodium_correct ReferenceLaws.ref_base64_correct
              ref_payload_codec_correct Reference.locked_provider
              Scenario.s0 {| DataCrypto.key := Reference.key32 |} (lit "user-1"))
    as (s1 & s2 & row1 & row2 & Hadd & _ & Htoggle & Htodos & _ & _ & Hrow2 & _).
  - reflexivity.
  - reflexivity.
  - reflexivity.
  - discriminate.
  - discriminate.
  - intros r [].
  - exists s1, s2, row1, row2. repeat split; assumption.
Defined.

(** C5 fails as stated: on a clock that reads the same instant at the insert
    and at the update, [updated_at] after the update is not strictly later
    than the [updated_at] written by the insert.  (The update of the list
    keeps the text: the stored envelope then decrypts to text "a",
    completed.) *)
Lemma addTodo_then_toggleCompleted_counterexample :
  exists row1 row2,
    TodoList.addTodo Scenario.s0 = (Resolved tt, Scenario.s1) /\
    TodoList.todos Scenario.s1 = [row1] /\
    TodoList.toggleCompleted (id row1) Scenario.s1 = (Resolved tt, Scenario.s2) /\
    TodoList.todos Scenario.s2 = [row2] /\
    id row2 = id row1 /\
    updated_at row2 = updated_at row1 /\
    strictly_later (updated_at row2) (updated_at row1) = false /\
    map (fun t => (TodoList.text t, TodoList.completed t))
        (TodoList.serverItems
           (TodoList.decrypt_rows Reference.platform Reference.locked_provider
              (TodoList.dataCrypto (TodoList.state Scenario.s2))
              (TodoList.todos Scenario.s2)))
    = [(lit "a", true)].
Proof.
  eexists. eexists.
  split; [vm_compute; reflexivity|].
  split; [vm_compute; reflexivity|].
  split; [vm_compute; reflexivity|].
  split; [vm_compute; reflexivity|].
  repeat split; vm_compute; reflexivity.
Qed.

(* ================================================================== *)
(** * Further properties of the sources *)
(* ================================================================== *)

(* ------------------------------------------------------------------ *)
(** ** The SQL statements *)
(* ------------------------------------------------------------------ *)

Section TextOrder.

Lemma bytes_leb_total (a b : bytes) : bytes_leb a b = true \/ bytes_leb b a = true.
Proof.
  revert b. induction a as [|x a IH]; intros [|y b]; simpl; auto.
  destruct (N.ltb (Byte.to_N x) (Byte.to_N y)) eqn:E1; auto.
  destruct (N.ltb (Byte.to_N y) (Byte.to_N x)) eqn:E2; auto.
Qed.

Lemma bytes_leb_trans (a b c : bytes) :
  bytes_leb a b = true -> bytes_leb b c = true -> bytes_leb a c = true.
Proof.
  revert b c. induction a as [|x a IH]; intros [|y b] [|z c]; simpl; auto;
    try discriminate.
  destruct (N.ltb (Byte.to_N x) (Byte.to_N y)) eqn:Exy;
  destruct (N.ltb (Byte.to_N y) (Byte.to_N x)) eqn:Eyx;
  destruct (N.ltb (Byte.to_N y) (Byte.to_N z)) eqn:Eyz;
  destruct (N.ltb (Byte.to_N z) (Byte.to_N y)) eqn:Ezy;
  destruct (N.ltb (Byte.to_N x) (Byte.to_N z)) eqn:Exz;
  destruct (N.ltb (Byte.to_N z) (Byte.to_N x)) eqn:Ezx;
  try discriminate; auto;
  repeat match goal with
         | H : N.ltb _ _ = true |- _ => apply N.ltb_lt in H
         | H : N.ltb _ _ = false |- _ => apply N.ltb_ge in H
         end; try lia.
  apply IH.
Qed.

Lemma text_leb_total (a b : jsstring) : text_leb a b = true \/ text_leb b a = true.
Proof. apply bytes_leb_total. Qed.

Lemma text_leb_trans (a b c : jsstring) :
  text_leb a b = true -> text_leb b c = true -> text_leb a c = true.
Proof. apply bytes_leb_trans. Qed.

Lemma insert_desc_perm (r : TodoRow) (l : list TodoRow) :
  Permutation (insert_desc r l) (r :: l).
Proof.
  induction l as [|r' l IH]; simpl; [reflexivity|].
  destruct (text_leb _ _); [reflexivity|].
  rewrite IH. apply perm_swap.
Qed.

Lemma ORDER_BY_perm (l : list TodoRow) :
  Permutation (ORDER_BY_created_at_DESC l) l.
Proof.
  induction l as [|r l IH]; simpl; [reflexivity|].
  unfold ORDER_BY_created_at_DESC in *. simpl.
  rewrite insert_desc_perm. now constructor.
Qed.

Lemma insert_desc_sorted (r : TodoRow) (l : list TodoRow) :
  newest_first l -> newest_first (insert_desc r l).
Proof.
  unfold newest_first. induction 1 as [|r' l Hs IH Hall]; simpl.
  - repeat constructor.
  - destruct (text_leb (created_at r') (created_at r)) eqn:E.
    + constructor.
      * constructor; assumption.
      * constructor; [exact E|].
        eapply Forall_impl; [|exact Hall]. intros x Hx. simpl in Hx.
        eapply text_leb_trans; eassumption.
    + constructor; [exact IH|].
      assert (Hr : text_leb (created_at r) (created_at r') = true).
      { destruct (text_leb_total (created_at r) (created_at r')) as [H|H];
          [exact H|congruence]. }
      rewrite (Forall_forall). intros x Hx.
      apply (Permutation_in _ (insert_desc_perm r l)) in Hx.
      destruct Hx as [<-|Hx]; [exact Hr|].
      rewrite Forall_forall in Hall. now apply Hall.
Qed.

Lemma ORDER_BY_sorted (l : list TodoRow) : newest_first (ORDER_BY_created_at_DESC l).
Proof.
  induction l as [|r l IH]; [constructor|].
  unfold ORDER_BY_created_at_DESC in *. simpl. now apply insert_desc_sorted.
Qed.

End TextOrder.

Lemma SELECT_BY_USER_SQL_perm (todos : list TodoRow) (u : jsstring) :
  Permutation (SELECT_BY_USER_SQL todos (Some u))
              (filter (fun r => code_eqb (user_id r) u) todos).
Proof.
  unfold SELECT_BY_USER_SQL. rewrite ORDER_BY_perm.
  erewrite filter_ext; [reflexivity|]. intros r. simpl.
  now destruct (code_eqb (user_id r) u).
Qed.

Lemma SELECT_BY_USER_SQL_In (todos : list TodoRow) (u : jsstring) (r : TodoRow) :
  In r (SELECT_BY_USER_SQL todos (Some u)) <-> In r todos /\ user_id r = u.
Proof.
  split.
  - intros H. apply (Permutation_in _ (SELECT_BY_USER_SQL_perm todos u)) in H.
    apply filter_In in H as [H1 H2]. now apply code_eqb_eq in H2.
  - intros [H1 H2].
    apply (Permutation_in _ (Permutation_sym (SELECT_BY_USER_SQL_perm todos u))).
    apply filter_In. split; [exact H1|]. now apply code_eqb_eq.
Qed.

(** X1. [SELECT_BY_USER_SQL] returns the rows of the table whose [user_id] is
    the parameter, each as often as it is in the table and no other row,
    from the newest to the oldest [created_at]. *)
Theorem SELECT_BY_USER_SQL_rows (todos : list TodoRow) (u : jsstring) :
  Permutation (SELECT_BY_USER_SQL todos (Some u))
              (filter (fun r => code_eqb (user_id r) u) todos) /\
  newest_first (SELECT_BY_USER_SQL todos (Some u)) /\
  forall r, In r (SELECT_BY_USER_SQL todos (Some u)) <-> In r todos /\ user_id r = u.
Proof.
  split; [apply SELECT_BY_USER_SQL_perm|]. split; [apply ORDER_BY_sorted|].
  intros r. apply SELECT_BY_USER_SQL_In.
Qed.

Lemma code_eqb_sym (s t : jsstring) : code_eqb s t = code_eqb t s.
Proof.
  destruct (code_eqb s t) eqn:E.
  - apply code_eqb_eq in E. subst. now rewrite code_eqb_refl.
  - apply code_eqb_neq in E. symmetry. apply code_eqb_neq. congruence.
Qed.

(** X2. With a bucket parameter that is not the empty string,
    [SELECT_BY_USER_OPTIONAL_BUCKET_SQL] returns exactly what
    [SELECT_BY_USER_AND_BUCKET_SQL] returns: the condition filters
    [bucket_id = value]. *)
Theorem optional_bucket_with_value (todos : list TodoRow) (u b : jsstring) :
  b <> [] ->
  SELECT_BY_USER_OPTIONAL_BUCKET_SQL todos (Some u) (Some b)
  = SELECT_BY_USER_AND_BUCKET_SQL todos (Some u) (Some b).
Proof.
  intros Hb. unfold SELECT_BY_USER_OPTIONAL_BUCKET_SQL, SELECT_BY_USER_AND_BUCKET_SQL.
  f_equal. apply filter_ext. intros r.
  assert (E : NULLIF (Some b) (Some (lit "")) = Some b).
  { assert (Hb' : code_eqb b (lit "") = false) by (apply code_eqb_neq; exact Hb).
    unfold NULLIF, sql_eq. now rewrite Hb'. }
  rewrite E. unfold COALESCE.
  destruct (bucket_id r) as [x|]; simpl; [|reflexivity].
  now rewrite (code_eqb_sym b x).
Qed.

Lemma optional_bucket_with_value_witness :
  lit "work" <> [] /\
  SELECT_BY_USER_OPTIONAL_BUCKET_SQL [row_without_bucket]
    (Some (lit "user-1")) (Some (lit "work"))
  = SELECT_BY_USER_AND_BUCKET_SQL [row_without_bucket]
      (Some (lit "user-1")) (Some (lit "work")).
Proof.
  split; [discriminate|].
  apply optional_bucket_with_value. discriminate.
Defined.

(** X3. With the empty string as bucket parameter,
    [SELECT_BY_USER_OPTIONAL_BUCKET_SQL] returns the rows of the user that
    have a bucket, and never a row whose [bucket_id] is [NULL]. *)
Theorem optional_bucket_empty_rows (todos : list TodoRow) (u : jsstring) :
  forall r,
    In r (SELECT_BY_USER_OPTIONAL_BUCKET_SQL todos (Some u) (Some (lit "")))
    <-> In r todos /\ user_id r = u /\ bucket_id r <> None.
Proof.
  intros r. rewrite optional_bucket_empty_parameter.
  unfold SELECT_BY_USER_SQL.
  split.
  - intros H. apply (Permutation_in _ (ORDER_BY_perm _)) in H.
    apply filter_In in H as [H Hu]. apply filter_In in H as [H Hb].
    repeat split; [exact H| |].
    + simpl in Hu. destruct (code_eqb (user_id r) u) eqn:E; [|discriminate].
      now apply code_eqb_eq.
    + destruct (bucket_id r); [discriminate|discriminate].
  - intros (H & Hu & Hb).
    apply (Permutation_in _ (Permutation_sym (ORDER_BY_perm _))).
    apply filter_In. split.
    + apply filter_In. split; [exact H|]. now destruct (bucket_id r).
    + simpl. apply code_eqb_eq in Hu. now rewrite Hu.
Qed.

(** Selecting rows of a list keeps its keys distinct. *)
Lemma distinct_keys_filter (T K : Type) (key : T -> K) (keep : T -> bool)
    (rows : list T) (Hkeys : NoDup (map key rows)) :
  NoDup (map key (filter keep rows)).
Proof.
  induction rows as [|r rows IH]; cbn [filter map] in *; [constructor|].
  apply NoDup_cons_iff in Hkeys as [Hr Hrows].
  destruct (keep r); cbn [map]; [|exact (IH Hrows)].
  apply NoDup_cons; [|exact (IH Hrows)].
  intros Hin. apply Hr. apply in_map_iff in Hin as (y & Hy & Hin).
  apply filter_In in Hin as [Hin _]. apply in_map_iff. eauto.
Qed.

Lemma UPDATE_SQL_keys (todos : list TodoRow) (c : EncryptedColumns)
    (now i u : jsstring) :
  map (fun r => (id r, user_id r, bucket_id r, created_at r))
      (UPDATE_SQL todos c now i u)
  = map (fun r => (id r, user_id r, bucket_id r, created_at r)) todos.
Proof.
  unfold UPDATE_SQL. rewrite map_map. apply map_ext. intros r.
  now destruct (code_eqb (id r) i && code_eqb (user_id r) u).
Qed.

Lemma INSERT_SQL_cases (todos : list TodoRow) (r : TodoRow) :
  (In (id r) (map id todos) /\ INSERT_SQL todos r = Rejected StorageFailure) \/
  (~ In (id r) (map id todos) /\ kdf_salt_b64 (columns r) = None /\
   INSERT_SQL todos r = Rejected StorageFailure) \/
  (~ In (id r) (map id todos) /\ kdf_salt_b64 (columns r) <> None /\
   INSERT_SQL todos r = Resolved (todos ++ [r])).
Proof.
  unfold INSERT_SQL.
  destruct (existsb (fun r' => code_eqb (id r') (id r)) todos) eqn:E.
  - left. split; [|reflexivity].
    apply existsb_exists in E as (r' & Hr' & E). apply code_eqb_eq in E.
    rewrite <- E. now apply in_map.
  - assert (Hfresh : ~ In (id r) (map id todos)).
    { intros H. apply in_map_iff in H as (r' & E' & Hr').
      assert (existsb (fun r' => code_eqb (id r') (id r)) todos = true).
      { apply existsb_exists. exists r'. split; [exact Hr'|]. now apply code_eqb_eq. }
      congruence. }
    right. destruct (kdf_salt_b64 (columns r)); [right|left]; repeat split;
      try exact Hfresh; discriminate.
Qed.

Lemma UPDATE_SQL_not_null (todos : list TodoRow) (c : EncryptedColumns)
    (now i u : jsstring) :
  kdf_salt_b64 c <> None -> Forall not_null todos ->
  Forall not_null (UPDATE_SQL todos c now i u).
Proof.
  intros Hc Hall. unfold UPDATE_SQL. apply Forall_forall. intros x Hx.
  apply in_map_iff in Hx as (r & <- & Hr).
  destruct (code_eqb (id r) i && code_eqb (user_id r) u); [exact Hc|].
  rewrite Forall_forall in Hall. now apply Hall.
Qed.

(** X4. The three writing statements keep the constraints of
    [CREATE_TABLE_SQL]: on a table whose rows have distinct [id]s and no
    [NULL] in a [NOT NULL] column, [INSERT_SQL] is rejected exactly when the
    [id] is taken or the new row has a [NULL] in a [NOT NULL] column, and
    the tables that [INSERT_SQL], [UPDATE_SQL] (given a salt that is not
    [NULL]) and [DELETE_SQL] leave have again distinct [id]s and no [NULL]
    in a [NOT NULL] column. *)
Theorem writes_keep_constraints (todos : list TodoRow) (r : TodoRow)
    (c : EncryptedColumns) (now i u : jsstring) :
  NoDup (map id todos) -> Forall not_null todos -> kdf_salt_b64 c <> None ->
  (INSERT_SQL todos r = Rejected StorageFailure
   <-> In (id r) (map id todos) \/ kdf_salt_b64 (columns r) = None) /\
  (forall todos', INSERT_SQL todos r = Resolved todos' ->
                  todos' = todos ++ [r] /\
                  NoDup (map id todos') /\ Forall not_null todos') /\
  (NoDup (map id (UPDATE_SQL todos c now i u)) /\
   Forall not_null (UPDATE_SQL todos c now i u)) /\
  (NoDup (map id (DELETE_SQL todos i u)) /\
   Forall not_null (DELETE_SQL todos i u)).
Proof.
  intros Hnd Hall Hc.
  destruct (INSERT_SQL_cases todos r)
    as [(Hin & E)|[(Hfresh & Hsalt & E)|(Hfresh & Hsalt & E)]];
    (split; [|split; [|split]]).
  - split; [intros _; now left|intros _; exact E].
  - intros todos' H. congruence.
  - shelve.
  - shelve.
  - split; [intros _; now right|intros _; exact E].
  - intros todos' H. congruence.
  - shelve.
  - shelve.
  - split; [intros H; congruence|intros [H|H]; contradiction].
  - intros todos' H. rewrite E in H. injection H as <-.
    split; [reflexivity|]. split.
    + rewrite map_app. cbn [map].
      apply (Permutation_NoDup (l := id r :: map id todos)).
      * apply Permutation_cons_append.
      * now constructor.
    + apply Forall_app. split; [exact Hall|]. constructor; [exact Hsalt|constructor].
  - shelve.
  - shelve.
  Unshelve.
  all: try (split; [|now apply UPDATE_SQL_not_null];
            assert (Ek : map id (UPDATE_SQL todos c now i u) = map id todos);
            [ pose proof (UPDATE_SQL_keys todos c now i u) as K;
              apply (f_equal (map (fun k : jsstring * jsstring * option jsstring * jsstring =>
                                     fst (fst (fst k))))) in K;
              now rewrite !map_map in K
            | now rewrite Ek ]).
  all: split; [unfold DELETE_SQL; now apply distinct_keys_filter|];
    unfold DELETE_SQL; apply Forall_forall; intros x Hx;
    apply filter_In in Hx as [Hx _]; rewrite Forall_forall in Hall; now apply Hall.
Qed.

Lemma writes_keep_constraints_witness :
  INSERT_SQL [row_without_bucket] row_without_bucket = Rejected StorageFailure /\
  NoDup (map id (DELETE_SQL [row_without_bucket] (lit "x") (lit "user-1"))).
Proof.
  assert (H1 : NoDup (map id [row_without_bucket])).
  { constructor; [intros []|constructor]. }
  assert (H2 : Forall not_null [row_without_bucket]).
  { constructor; [discriminate|constructor]. }
  assert (H3 : kdf_salt_b64 (columns row_without_bucket) <> None) by discriminate.
  pose proof (@writes_keep_constraints [row_without_bucket] row_without_bucket
                (columns row_without_bucket) (lit "now") (lit "x") (lit "user-1")
                H1 H2 H3) as (Hins & _ & _ & Hdel & _).
  split; [|exact Hdel].
  apply Hins. left. now left.
Defined.

(** X5. A row that [INSERT_SQL] accepted is found by [SELECT_BY_USER_SQL]
    for its user, and the statement adds nothing else: the rows selected for
    any user afterwards are those selected before and, for the row's user,
    the new row. *)
Theorem INSERT_SQL_then_SELECT (todos todos' : list TodoRow) (r : TodoRow) :
  INSERT_SQL todos r = Resolved todos' ->
  In r (SELECT_BY_USER_SQL todos' (Some (user_id r))) /\
  forall u x,
    In x (SELECT_BY_USER_SQL todos' (Some u))
    <-> In x (SELECT_BY_USER_SQL todos (Some u)) \/ (x = r /\ user_id r = u).
Proof.
  intros H.
  destruct (INSERT_SQL_cases todos r) as [[_ E]|[(_ & _ & E)|(_ & _ & E)]];
    [congruence|congruence|].
  rewrite E in H. injection H as <-.
  pose proof SELECT_BY_USER_SQL_In as Hsel.
  split.
  - apply Hsel. split; [|reflexivity]. apply in_or_app. right. now left.
  - intros u x. rewrite !Hsel. rewrite in_app_iff. simpl.
    split.
    + intros [[H|[<-|[]]] Hu]; [left; now split|right; now split].
    + intros [[H Hu]|[-> Hu]]; (split; [|exact Hu]); [now left|right; now left].
Qed.

Lemma INSERT_SQL_then_SELECT_witness :
  INSERT_SQL [] row_without_bucket = Resolved [row_without_bucket] /\
  In row_without_bucket
     (SELECT_BY_USER_SQL [row_without_bucket] (Some (user_id row_without_bucket))).
Proof.
  split; [reflexivity|].
  exact (proj1 (@INSERT_SQL_then_SELECT [] [row_without_bucket] row_without_bucket
                  eq_refl)).
Defined.

Lemma filter_user_map (f : TodoRow -> TodoRow) (p : TodoRow -> bool)
    (todos : list TodoRow) :
  (forall r, p (f r) = p r) ->
  (forall r, p r = true -> f r = r) ->
  filter p (map f todos) = filter p todos.
Proof.
  intros Hp Hf. induction todos as [|r todos IH]; simpl; [reflexivity|].
  rewrite Hp. destruct (p r) eqn:E; [|exact IH].
  now rewrite (Hf r E), IH.
Qed.

(** X6. [UPDATE_SQL] is scoped by user: it leaves the number of rows and
    every row's [id], [user_id], [bucket_id] and [created_at] as they are,
    and for any user other than the one in its parameters
    [SELECT_BY_USER_SQL] returns the same rows before and after. *)
Theorem UPDATE_SQL_scope (todos : list TodoRow) (c : EncryptedColumns)
    (now i u u' : jsstring) :
  u' <> u ->
  List.length (UPDATE_SQL todos c now i u) = List.length todos /\
  map (fun r => (id r, user_id r, bucket_id r, created_at r))
      (UPDATE_SQL todos c now i u)
  = map (fun r => (id r, user_id r, bucket_id r, created_at r)) todos /\
  SELECT_BY_USER_SQL (UPDATE_SQL todos c now i u) (Some u')
  = SELECT_BY_USER_SQL todos (Some u').
Proof.
  intros Hu. split; [unfold UPDATE_SQL; apply length_map|].
  split; [apply UPDATE_SQL_keys|].
  unfold SELECT_BY_USER_SQL, UPDATE_SQL. f_equal.
  apply filter_user_map.
  - intros r. now destruct (code_eqb (id r) i && code_eqb (user_id r) u).
  - intros r Hr. simpl in Hr.
    destruct (code_eqb (user_id r) u') eqn:E; [|discriminate].
    apply code_eqb_eq in E.
    assert (E' : code_eqb (user_id r) u = false)
      by (apply code_eqb_neq; congruence).
    now rewrite E', andb_false_r.
Qed.

Lemma UPDATE_SQL_scope_witness :
  lit "user-2" <> lit "user-1" /\
  SELECT_BY_USER_SQL
    (UPDATE_SQL [row_without_bucket] (columns row_without_bucket) (lit "now")
       (id row_without_bucket) (lit "user-1")) (Some (lit "user-2"))
  = SELECT_BY_USER_SQL [row_without_bucket] (Some (lit "user-2")).
Proof.
  assert (H : lit "user-2" <> lit "user-1") by discriminate.
  split; [exact H|].
  exact (proj2 (proj2 (@UPDATE_SQL_scope [row_without_bucket]
                         (columns row_without_bucket) (lit "now")
                         (id row_without_bucket) (lit "user-1") (lit "user-2") H))).
Defined.

Lemma filter_filter_implied (A : Type) (p q : A -> bool) (l : list A) :
  (forall x, p x = true -> q x = true) ->
  filter p (filter q l) = filter p l.
Proof.
  intros H. induction l as [|x l IH]; simpl; [reflexivity|].
  destruct (q x) eqn:Eq; simpl.
  - now rewrite IH.
  - destruct (p x) eqn:Ep; [|exact IH].
    apply H in Ep. congruence.
Qed.

(** X7. [DELETE_SQL] is scoped by user: afterwards [SELECT_BY_USER_SQL] for
    the user in its parameters returns that user's rows of every other [id]
    and no row of the deleted [id]; for any other user it returns the same
    rows as before. *)
Theorem DELETE_SQL_scope (todos : list TodoRow) (i u : jsstring) :
  (forall r, In r (SELECT_BY_USER_SQL (DELETE_SQL todos i u) (Some u))
             <-> In r (SELECT_BY_USER_SQL todos (Some u)) /\ id r <> i) /\
  (forall u', u' <> u ->
     SELECT_BY_USER_SQL (DELETE_SQL todos i u) (Some u')
     = SELECT_BY_USER_SQL todos (Some u')).
Proof.
  split.
  - intros r. rewrite !SELECT_BY_USER_SQL_In. unfold DELETE_SQL.
    rewrite filter_In. split.
    + intros [[H Hd] Hu]. repeat split; try assumption.
      intros Hi. apply code_eqb_eq in Hi, Hu. now rewrite Hi, Hu in Hd.
    + intros [[H Hu] Hi]. repeat split; try assumption.
      apply code_eqb_neq in Hi. now rewrite Hi.
  - intros u' Hu. unfold SELECT_BY_USER_SQL, DELETE_SQL. f_equal.
    apply filter_filter_implied. intros r Hr. simpl in Hr.
    destruct (code_eqb (user_id r) u') eqn:E; [|discriminate].
    apply code_eqb_eq in E.
    assert (E' : code_eqb (user_id r) u = false)
      by (apply code_eqb_neq; congruence).
    now rewrite E', andb_false_r.
Qed.

Lemma DELETE_SQL_scope_witness :
  lit "user-2" <> lit "user-1" /\
  SELECT_BY_USER_SQL
    (DELETE_SQL [row_without_bucket] (id row_without_bucket) (lit "user-1"))
    (Some (lit "user-2"))
  = SELECT_BY_USER_SQL [row_without_bucket] (Some (lit "user-2")).
Proof.
  assert (H : lit "user-2" <> lit "user-1") by discriminate.
  split; [exact H|].
  exact (proj2 (@DELETE_SQL_scope [row_without_bucket] (id row_without_bucket)
                  (lit "user-1")) (lit "user-2") H).
Defined.

(* ------------------------------------------------------------------ *)
(** ** [DataCrypto], [utf8] and the envelope columns *)
(* ------------------------------------------------------------------ *)

(** X8. An absent AAD and the empty AAD string are the same to
    [DataCrypto]: an envelope encrypted with either decrypts to the
    plaintext with either. *)
Theorem empty_aad_is_no_aad (P : Platform) (this : DataCrypto.t) (p : bytes)
    (a a' : option jsstring) (w : world P) :
  sodium_correct P -> base64_correct P ->
  List.length (DataCrypto.key this) = crypto_aead_xchacha20poly1305_ietf_KEYBYTES ->
  truthy a = false -> truthy a' = false ->
  exists env,
    fst (DataCrypto.encrypt P this p a w) = Resolved env /\
    DataCrypto.decrypt P this env a' = Resolved p.
Proof.
  intros Hs Hb Hk Ha Ha'. apply decrypt_encrypt_when; try assumption.
  unfold DataCrypto.encode_aad. rewrite Ha.
  destruct a' as [[|c s]|]; cbn [truthy nullish] in *.
  - reflexivity.
  - discriminate.
  - now rewrite Ha.
Qed.

Lemma empty_aad_is_no_aad_witness :
  exists env,
    fst (DataCrypto.encrypt Reference.platform {| DataCrypto.key := Reference.key32 |}
           [x68; x69] None Reference.w0) = Resolved env /\
    DataCrypto.decrypt Reference.platform {| DataCrypto.key := Reference.key32 |}
           env (Some (lit "")) = Resolved [x68; x69].
Proof.
  apply (@empty_aad_is_no_aad Reference.platform);
    [exact ReferenceLaws.ref_sodium_correct
    |exact ReferenceLaws.ref_base64_correct
    |reflexivity|reflexivity|reflexivity].
Defined.

(** X9. A key from [generateDEK] has the 32 bytes the cipher asks for: a
    [DataCrypto] built on it encrypts, and decrypts what it encrypted under
    the same AAD. *)
Theorem generateDEK_key_works (P : Platform) (p : bytes) (a : option jsstring)
    (w : world P) :
  sodium_correct P -> base64_correct P ->
  List.length (fst (DataCrypto.generateDEK P w))
    = crypto_aead_xchacha20poly1305_ietf_KEYBYTES /\
  exists env,
    fst (DataCrypto.encrypt P {| DataCrypto.key := fst (DataCrypto.generateDEK P w) |}
           p a (snd (DataCrypto.generateDEK P w))) = Resolved env /\
    DataCrypto.decrypt P {| DataCrypto.key := fst (DataCrypto.generateDEK P w) |}
           env a = Resolved p.
Proof.
  intros Hs Hb.
  assert (Hk : List.length (fst (DataCrypto.generateDEK P w))
               = crypto_aead_xchacha20poly1305_ietf_KEYBYTES).
  { unfold DataCrypto.generateDEK. apply (randombytes_buf_length Hs). }
  split; [exact Hk|].
  apply decrypt_encrypt_when; try assumption.
  now destruct a.
Qed.

Lemma generateDEK_key_works_witness :
  List.length (fst (DataCrypto.generateDEK Reference.platform Reference.w0)) = 32.
Proof.
  exact (proj1 (@generateDEK_key_works Reference.platform [x68] None Reference.w0
                  ReferenceLaws.ref_sodium_correct ReferenceLaws.ref_base64_correct)).
Defined.

Lemma utf8_code_point_length (cp : N) :
  (cp < 0x10000)%N ->
  1 <= List.length (utf8_code_point cp) <= 3.
Proof.
  intros H. unfold utf8_code_point.
  destruct (N.ltb cp 128); [simpl; lia|].
  destruct (N.ltb cp 2048); [simpl; lia|].
  destruct (N.ltb cp 65536) eqn:E; [simpl; lia|].
  apply N.ltb_ge in E. lia.
Qed.

Lemma utf8_length_fuel (n : nat) (s : jsstring) :
  List.length s <= n ->
  Forall (fun c => (c < 0x10000)%N) s ->
  List.length s <= List.length (utf8 s) <= 3 * List.length s.
Proof.
  revert s. induction n as [|n IH]; intros s Hn Hs.
  - destruct s; cbn [List.length utf8] in *; lia.
  - destruct s as [|c rest]; [cbn [List.length utf8]; lia|].
    inversion Hs as [|? ? Hc Hrest]; subst. clear Hs.
    cbn [List.length] in Hn.
    assert (Hr : List.length rest <= List.length (utf8 rest) <= 3 * List.length rest)
      by (apply IH; [lia|exact Hrest]).
    assert (Hrep : List.length (utf8_code_point replacement_character) = 3)
      by reflexivity.
    pose proof (utf8_code_point_length Hc) as Hcp.
    cbn [utf8].
    destruct (is_high_surrogate c).
    + destruct rest as [|d rest'].
      * rewrite Hrep. cbn [List.length]. lia.
      * destruct (is_low_surrogate d) eqn:Ed.
        -- inversion Hrest as [|? ? Hd Hrest']; subst.
           cbn [List.length] in Hn.
           assert (Hr' : List.length rest' <= List.length (utf8 rest')
                         <= 3 * List.length rest')
             by (apply IH; [lia|exact Hrest']).
           assert (H4 : List.length
                          (utf8_code_point
                             (0x10000 + (c - 0xD800) * 0x400 + (d - 0xDC00))) = 4).
           { unfold utf8_code_point.
             replace (N.ltb _ 128) with false by (symmetry; apply N.ltb_ge; lia).
             replace (N.ltb _ 2048) with false by (symmetry; apply N.ltb_ge; lia).
             replace (N.ltb _ 65536) with false by (symmetry; apply N.ltb_ge; lia).
             reflexivity. }
           rewrite length_app, H4. cbn [List.length].
           clear - Hr'. lia.
        -- rewrite length_app, Hrep.
           clear - Hr. cbn [List.length] in *. lia.
    + destruct (is_low_surrogate c).
      * rewrite length_app, Hrep. clear - Hr. cbn [List.length]. lia.
      * rewrite length_app. clear - Hr Hcp. cbn [List.length]. lia.
Qed.

(** X10. [utf8] writes between one and three bytes for each UTF-16 code
    unit: the encoding of a string is at least as long as the string and at
    most three times as long. *)
Theorem utf8_length (s : jsstring) :
  Forall (fun c => (c < 0x10000)%N) s ->
  List.length s <= List.length (utf8 s) <= 3 * List.length s.
Proof.
  apply (@utf8_length_fuel (List.length s)). lia.
Qed.

Lemma utf8_length_witness :
  List.length [0x20AC%N; 0x41%N] <= List.length (utf8 [0x20AC%N; 0x41%N])
  <= 3 * List.length [0x20AC%N; 0x41%N].
Proof.
  apply utf8_length. repeat constructor.
Defined.

(** X11. The envelope columns that [addTodo] and [toggleCompleted] write
    rebuild, through [columnsToEnvelope], the envelope they were taken from
    exactly when that envelope has version 1 and the AAD of the list
    ("todo-v1"). *)
Theorem columnsToEnvelope_envelope_params (env : CipherEnvelope) :
  columnsToEnvelope (TodoList.envelope_params env) = env
  <-> v (header env) = 1%N /\ header_aad (header env) = Some TodoList.aad_todo.
Proof.
  destruct env as [[ver a d [salt]] n c].
  unfold columnsToEnvelope, TodoList.envelope_params. cbn.
  split.
  - intros H. injection H as Hv Ha. auto.
  - intros [-> ->]. reflexivity.
Qed.

(* ------------------------------------------------------------------ *)
(** ** [TodoList]: identifiers *)
(* ------------------------------------------------------------------ *)

Lemma hex_digit_lower_hex (n : N) : (n < 16)%N -> is_lower_hex (TodoList.hex_digit n) = true.
Proof.
  intros H. unfold TodoList.hex_digit, is_lower_hex.
  destruct (N.ltb n 10) eqn:E.
  - apply N.ltb_lt in E. apply orb_true_iff. left.
    apply andb_true_iff. split; apply N.leb_le; lia.
  - apply N.ltb_ge in E. apply orb_true_iff. right.
    apply andb_true_iff. split; apply N.leb_le; lia.
Qed.

Lemma hex_digit_injective (n m : N) :
  (n < 16)%N -> (m < 16)%N ->
  TodoList.hex_digit n = TodoList.hex_digit m -> n = m.
Proof.
  intros Hn Hm. unfold TodoList.hex_digit.
  destruct (N.ltb n 10) eqn:En; destruct (N.ltb m 10) eqn:Em;
    repeat match goal with
           | H : N.ltb _ _ = true |- _ => apply N.ltb_lt in H
           | H : N.ltb _ _ = false |- _ => apply N.ltb_ge in H
           end; lia.
Qed.

Lemma hex_byte_injective (b b' : byte) :
  TodoList.hex_byte b = TodoList.hex_byte b' -> b = b'.
Proof.
  unfold TodoList.hex_byte. intros H. injection H as Hhi Hlo.
  pose proof (ReferenceLaws.to_N_lt_256 b) as Hb.
  pose proof (ReferenceLaws.to_N_lt_256 b') as Hb'.
  assert (Hd : (Byte.to_N b / 16 < 16)%N)
    by (apply N.Div0.div_lt_upper_bound; lia).
  assert (Hd' : (Byte.to_N b' / 16 < 16)%N)
    by (apply N.Div0.div_lt_upper_bound; lia).
  assert (Hm : (Byte.to_N b mod 16 < 16)%N) by (apply N.mod_lt; lia).
  assert (Hm' : (Byte.to_N b' mod 16 < 16)%N) by (apply N.mod_lt; lia).
  apply hex_digit_injective in Hhi; [|assumption|assumption].
  apply hex_digit_injective in Hlo; [|assumption|assumption].
  assert (E : Byte.to_N b = Byte.to_N b').
  { rewrite (N.div_mod (Byte.to_N b) 16) by lia.
    rewrite (N.div_mod (Byte.to_N b') 16) by lia. now rewrite Hhi, Hlo. }
  apply (f_equal Byte.of_N) in E. rewrite !Byte.of_to_N in E. congruence.
Qed.

Lemma flat_map_hex_byte_injective (bs bs' : bytes) :
  flat_map TodoList.hex_byte bs = flat_map TodoList.hex_byte bs' -> bs = bs'.
Proof.
  revert bs'. induction bs as [|b bs IH]; intros [|b' bs'] H;
    try discriminate; [reflexivity|].
  cbn [flat_map] in H. unfold TodoList.hex_byte at 1 3 in H.
  cbn [app] in H. injection H as H1 H2 H.
  f_equal; [|now apply IH].
  apply hex_byte_injective. unfold TodoList.hex_byte. congruence.
Qed.

(** X12. [cryptoRandomId] returns 20 lowercase hexadecimal digits, and the
    digits determine the 10 random bytes they were written from: two draws
    give the same id only when they drew the same bytes. *)
Theorem cryptoRandomId_format (P : Platform) (w w' : world P) :
  getRandomValues_length P ->
  List.length (fst (TodoList.cryptoRandomId P w)) = 20 /\
  forallb is_lower_hex (fst (TodoList.cryptoRandomId P w)) = true /\
  (fst (TodoList.cryptoRandomId P w) = fst (TodoList.cryptoRandomId P w') ->
   fst (getRandomValues P 10 w) = fst (getRandomValues P 10 w')).
Proof.
  intros Hlen. unfold TodoList.cryptoRandomId.
  pose proof (Hlen 10 w) as Hw.
  destruct (getRandomValues P 10 w) as [bs w1].
  destruct (getRandomValues P 10 w') as [bs' w1']. cbn [fst] in *.
  assert (Hl : forall l : bytes,
             List.length (flat_map TodoList.hex_byte l) = 2 * List.length l).
  { induction l as [|b l IH]; [reflexivity|].
    cbn [flat_map]. rewrite length_app, IH. cbn [TodoList.hex_byte List.length]. lia. }
  assert (Hh : forall l : bytes,
             forallb is_lower_hex (flat_map TodoList.hex_byte l) = true).
  { induction l as [|b l IH]; [reflexivity|].
    cbn [flat_map]. rewrite forallb_app, IH, andb_true_r.
    pose proof (ReferenceLaws.to_N_lt_256 b) as Hb.
    unfold TodoList.hex_byte. cbn [forallb].
    rewrite !hex_digit_lower_hex; [reflexivity| |].
    - apply N.mod_lt. lia.
    - apply N.Div0.div_lt_upper_bound. lia. }
  split; [rewrite Hl, Hw; reflexivity|].
  split; [apply Hh|apply flat_map_hex_byte_injective].
Qed.

Lemma ref_getRandomValues_length : getRandomValues_length Reference.platform.
Proof. intros n w. simpl. apply repeat_length. Qed.

Lemma cryptoRandomId_format_witness :
  List.length (fst (TodoList.cryptoRandomId Reference.platform Reference.w0)) = 20.
Proof.
  exact (proj1 (@cryptoRandomId_format Reference.platform Reference.w0 Reference.w0
                  ref_getRandomValues_length)).
Defined.

(* ------------------------------------------------------------------ *)
(** ** [TodoList]: the list after the decrypt effect *)
(* ------------------------------------------------------------------ *)

Section MergeItems.
Import TodoList.

Lemma existsb_code_eqb (x : jsstring) (l : list jsstring) :
  existsb (code_eqb x) l = true <-> In x l.
Proof.
  rewrite existsb_exists. split.
  - intros (y & Hy & E). apply code_eqb_eq in E. now subst.
  - intros H. exists x. split; [exact H|apply code_eqb_refl].
Qed.

Lemma merge_items_In (server prev : list Todo) (t : Todo) :
  In t (merge_items server prev)
  <-> In t server \/
      (In t prev /\ synced t = false /\ ~ In (todo_id t) (map todo_id server)).
Proof.
  unfold merge_items. rewrite in_app_iff, filter_In. split.
  - intros [[H Hc]|H]; [right|now left].
    apply andb_true_iff in Hc as [Hs Hn].
    repeat split; [exact H|now destruct (synced t)|].
    intros Hin. apply existsb_code_eqb in Hin. now rewrite Hin in Hn.
  - intros [H|(H & Hs & Hn)]; [now right|left].
    split; [exact H|]. rewrite Hs. simpl.
    destruct (existsb (code_eqb (todo_id t)) (map todo_id server)) eqn:E;
      [|reflexivity].
    apply existsb_code_eqb in E. contradiction.
Qed.

(** X13. The merge of the decrypt effect keeps every server item and every
    previous item that is not yet synced and whose id no server item has,
    and nothing else; when the server items have distinct ids and so have
    the previous items, no two items of the merged list share an id. *)
Theorem merge_items_spec (server prev : list Todo) :
  NoDup (map todo_id server) -> NoDup (map todo_id prev) ->
  (forall t, In t (merge_items server prev)
             <-> In t server \/
                 (In t prev /\ synced t = false /\
                  ~ In (todo_id t) (map todo_id server))) /\
  NoDup (map todo_id (merge_items server prev)).
Proof.
  intros Hs Hp. split; [intros t; apply merge_items_In|].
  unfold merge_items. rewrite map_app.
  apply NoDup_app; [now apply distinct_keys_filter|exact Hs|].
  intros x Hx Hx'.
  apply in_map_iff in Hx as (t & <- & Ht).
  apply filter_In in Ht as [_ Hc]. apply andb_true_iff in Hc as [_ Hn].
  apply existsb_code_eqb in Hx'. now rewrite Hx' in Hn.
Qed.

End MergeItems.

Lemma merge_items_spec_witness :
  NoDup (map TodoList.todo_id (TodoList.merge_items [Scenario.mirrored] [])).
Proof.
  refine (proj2 (@merge_items_spec [Scenario.mirrored] [] _ _)).
  - constructor; [intros []|constructor].
  - constructor.
Defined.

Section EffectFacts.
Import TodoList.

Variable P : Platform.
Variable crypto : CryptoProvider.

Lemma projection_shape (dc : option DataCrypto.t) (r : TodoRow) (t : Todo) :
  In t (projection P crypto dc r) ->
  todo_id t = id r /\ env t = row_envelope r /\ synced t = true.
Proof.
  unfold projection, decrypt_row.
  destruct (includes _ _).
  - destruct dc as [d|]; [|intros []].
    destruct (DataCrypto.decrypt P d _ _) as [plain|e]; [|intros []].
    destruct (parse_plain P plain). intros [<-|[]]. auto.
  - destruct (provider_decrypt crypto _ _) as [plain|e]; [|intros []].
    destruct (parse_plain P plain). intros [<-|[]]. auto.
Qed.

Lemma serverItems_shape (dc : option DataCrypto.t) (rows : list TodoRow) :
  Forall (fun t => synced t = true /\
                   exists r, In r rows /\ todo_id t = id r /\ env t = row_envelope r)
         (serverItems (decrypt_rows P crypto dc rows)).
Proof.
  rewrite decrypt_rows_spec. cbn [serverItems].
  apply Forall_forall. intros t Ht.
  apply in_flat_map in Ht as (r & Hr & Ht).
  apply projection_shape in Ht as (H1 & H2 & H3). eauto.
Qed.

(** X14. After the decrypt effect has processed a batch, the synced items
    of the list are exactly the items decrypted from the batch, in the
    order of the rows: each has the id and the envelope of a row of the
    batch, so a synced item whose row is no longer delivered is gone from
    the list. *)
Theorem decrypt_effect_synced_items (st : State) (rows : list TodoRow)
    (isFetching : bool) :
  isFetching && Nat.eqb (List.length rows) 0 = false ->
  filter synced (items (decrypt_effect P crypto (Some rows) isFetching st))
    = serverItems (decrypt_rows P crypto (dataCrypto st) rows) /\
  forall t,
    In t (items (decrypt_effect P crypto (Some rows) isFetching st)) ->
    synced t = true ->
    exists r, In r rows /\ todo_id t = id r /\ env t = row_envelope r.
Proof.
  intros Hrun. unfold decrypt_effect. rewrite Hrun. cbn [setItems items].
  pose proof (serverItems_shape (dataCrypto st) rows) as Hshape.
  set (server := serverItems (decrypt_rows P crypto (dataCrypto st) rows)) in *.
  assert (Hf : filter synced (merge_items server (items st)) = server).
  { unfold merge_items. rewrite filter_app.
    assert (H1 : filter synced
                   (filter (fun t => negb (synced t) &&
                                     negb (existsb (code_eqb (todo_id t))
                                             (map todo_id server))) (items st)) = []).
    { induction (items st) as [|t l IH]; [reflexivity|].
      cbn [filter]. destruct (synced t) eqn:E; cbn [negb andb]; [exact IH|].
      destruct (negb _); cbn [filter]; [rewrite E|]; exact IH. }
    rewrite H1. cbn [app].
    clear H1. induction Hshape as [|t l [Ht _] _ IH]; [reflexivity|].
    cbn [filter]. now rewrite Ht, IH. }
  split; [exact Hf|].
  intros t Ht Hs.
  assert (Hin : In t (filter synced (merge_items server (items st))))
    by (apply filter_In; auto).
  rewrite Hf in Hin. rewrite Forall_forall in Hshape.
  now destruct (Hshape t Hin).
Qed.

(** X15. The counters of the decrypt loop: [ok] counts the items decrypted,
    and [ok + fail] never exceeds the number of rows; with a DEK every row
    is either decrypted or counted as failed. *)
Theorem decrypt_rows_counters (dc : option DataCrypto.t) (rows : list TodoRow) :
  let run := decrypt_rows P crypto dc rows in
  ok run = List.length (serverItems run) /\
  ok run + fail run <= List.length rows /\
  (dc <> None -> ok run + fail run = List.length rows).
Proof.
  cbv zeta. rewrite decrypt_rows_spec. cbn [ok fail serverItems].
  split; [reflexivity|].
  assert (Hrow : forall r,
             List.length (projection P crypto dc r)
             + (if caught P crypto dc r then 1 else 0) <= 1 /\
             (dc <> None ->
              List.length (projection P crypto dc r)
              + (if caught P crypto dc r then 1 else 0) = 1)).
  { intros r. unfold projection, caught, decrypt_row.
    destruct (includes _ _).
    - destruct dc as [d|]; [|split; [simpl; lia|congruence]].
      destruct (DataCrypto.decrypt P d _ _) as [plain|e]; [|simpl; split; lia].
      destruct (parse_plain P plain). simpl. split; lia.
    - destruct (provider_decrypt crypto _ _) as [plain|e]; [|simpl; split; lia].
      destruct (parse_plain P plain). simpl. split; lia. }
  induction rows as [|r rows [IH1 IH2]]; [simpl; split; lia|].
  cbn [flat_map filter]. rewrite length_app.
  destruct (Hrow r) as [H1 H2].
  destruct (caught P crypto dc r); cbn [List.length]; split; try lia;
    intros Hdc; specialize (H2 Hdc); specialize (IH2 Hdc); lia.
Qed.

End EffectFacts.

Lemma decrypt_effect_synced_items_witness :
  filter TodoList.synced
    (TodoList.items
       (TodoList.decrypt_effect Reference.platform Reference.locked_provider
          (Some [Scenario.undecryptable]) false Scenario.locked))
  = TodoList.serverItems
      (TodoList.decrypt_rows Reference.platform Reference.locked_provider
         (TodoList.dataCrypto Scenario.locked) [Scenario.undecryptable]).
Proof.
  exact (proj1 (@decrypt_effect_synced_items Reference.platform
                  Reference.locked_provider Scenario.locked
                  [Scenario.undecryptable] false eq_refl)).
Defined.

(* ------------------------------------------------------------------ *)
(** ** [TodoList]: the handlers *)
(* ------------------------------------------------------------------ *)

Section Handlers.
Import TodoList.

Variable P : Platform.
Hypothesis sodium : sodium_correct P.

(** X16. When nobody is signed in, [addTodo] on an unlocked list with a
    non-blank input resolves, puts one new item, not synced, with the
    trimmed text and not completed, in front of the list, clears the input
    and writes no row. *)
Theorem addTodo_signed_out (s : System P) (dc : DataCrypto.t) :
  dataCrypto (state s) = Some dc ->
  List.length (DataCrypto.key dc) = crypto_aead_xchacha20poly1305_ietf_KEYBYTES ->
  truthy (userId (state s)) = false ->
  trim (text_input (state s)) <> [] ->
  exists s' t,
    addTodo s = (Resolved tt, s') /\
    todos s' = todos s /\
    items (state s') = t :: items (state s) /\
    text t = trim (text_input (state s)) /\
    completed t = false /\ synced t = false /\
    text_input (state s') = [].
Proof.
  intros Hdc Hk Hu Ha.
  destruct (encrypt_returns sodium dc
              (utf8 (JSON_stringify P
                       (payload_object (trim (text_input (state s))) false)))
              (Some aad_todo) (outside s) Hk) as (n1 & c1 & _ & _ & _ & Henc).
  unfold addTodo.
  destruct (trim (text_input (state s))) as [|a0 a'] eqn:Ea; [congruence|].
  cbn [truthy negb]. rewrite Hdc, Henc.
  destruct (cryptoRandomId P _) as [new_id w2].
  destruct (userId (state s)) as [[|u0 u']|]; cbn [truthy] in Hu; try discriminate;
    (eexists; eexists; split; [reflexivity|]; cbn; repeat split; reflexivity).
Qed.

(** X17. When the id that [addTodo] draws is already the id of a row,
    the insert fails and [addTodo] rejects; the table is unchanged and the
    new item stays in front of the list, not synced. *)
Theorem addTodo_id_taken (s : System P) (dc : DataCrypto.t) (u : jsstring) :
  dataCrypto (state s) = Some dc ->
  List.length (DataCrypto.key dc) = crypto_aead_xchacha20poly1305_ietf_KEYBYTES ->
  userId (state s) = Some u -> u <> [] ->
  trim (text_input (state s)) <> [] ->
  In (fst (cryptoRandomId P
             (snd (randombytes_buf P crypto_aead_xchacha20poly1305_ietf_NPUBBYTES
                     (outside s)))))
     (map id (todos s)) ->
  exists s' t,
    addTodo s = (Rejected StorageFailure, s') /\
    todos s' = todos s /\
    items (state s') = t :: items (state s) /\
    todo_id t = fst (cryptoRandomId P
                       (snd (randombytes_buf P
                               crypto_aead_xchacha20poly1305_ietf_NPUBBYTES
                               (outside s)))) /\
    text t = trim (text_input (state s)) /\
    synced t = false.
Proof.
  intros Hdc Hk Hu Hne Ha Htaken.
  destruct (encrypt_returns sodium dc
              (utf8 (JSON_stringify P
                       (payload_object (trim (text_input (state s))) false)))
              (Some aad_todo) (outside s) Hk) as (n1 & c1 & _ & _ & _ & Henc).
  unfold addTodo.
  destruct (trim (text_input (state s))) as [|a0 a'] eqn:Ea; [congruence|].
  cbn [truthy negb]. rewrite Hdc, Henc.
  destruct (cryptoRandomId P _) as [new_id w2]. cbn [fst] in Htaken.
  rewrite Hu. destruct u as [|u0 u']; [congruence|].
  destruct (Date_toISOString P w2) as [now w3].
  match goal with
  | |- context [INSERT_SQL ?l ?r] =>
      destruct (INSERT_SQL_cases l r) as [[_ E]|[(Hn & _)|(Hn & _)]];
        [rewrite E|cbn [id] in Hn; contradiction..]
  end.
  eexists; eexists; split; [reflexivity|]. cbn. repeat split; reflexivity.
Qed.

(** X18. [toggleCompleted] never adds, removes or renames anything: whatever
    it returns, the list has the same ids and texts in the same order, the
    table has the same rows up to their envelope columns and [updated_at],
    and only items and rows of the given id can differ. *)
Theorem toggleCompleted_frame (p_id : jsstring) (s : System P) :
  let s' := snd (toggleCompleted p_id s) in
  map (fun t => (todo_id t, text t)) (items (state s'))
    = map (fun t => (todo_id t, text t)) (items (state s)) /\
  map (fun r => (id r, user_id r, bucket_id r, created_at r)) (todos s')
    = map (fun r => (id r, user_id r, bucket_id r, created_at r)) (todos s) /\
  (forall t, In t (items (state s')) -> todo_id t <> p_id -> In t (items (state s))) /\
  (forall r, In r (todos s') -> id r <> p_id -> In r (todos s)).
Proof.
  cbv zeta.
  assert (Hmap : forall (f : Todo -> Todo) (l : list Todo),
             (forall x, (todo_id (f x), text (f x)) = (todo_id x, text x)) ->
             map (fun t => (todo_id t, text t)) (map f l)
             = map (fun t => (todo_id t, text t)) l).
  { intros f l Hf. rewrite map_map. now apply map_ext. }
  assert (Hin : forall (f : Todo -> Todo) (l : list Todo) (t : Todo),
             (forall x, todo_id (f x) = todo_id x) ->
             (forall x, todo_id x <> p_id -> f x = x) ->
             In t (map f l) -> todo_id t <> p_id -> In t l).
  { intros f l t Hid Hf Ht Hne. apply in_map_iff in Ht as (x & <- & Hx).
    rewrite Hf; [exact Hx|]. now rewrite <- Hid. }
  assert (Hupd : forall c now u (r : TodoRow),
             In r (UPDATE_SQL (todos s) c now p_id u) -> id r <> p_id ->
             In r (todos s)).
  { intros c now u r Hr Hne. unfold UPDATE_SQL in Hr.
    apply in_map_iff in Hr as (x & <- & Hx).
    destruct (code_eqb (id x) p_id) eqn:E; cbn [andb] in *; [|exact Hx].
    apply code_eqb_eq in E.
    destruct (code_eqb (user_id x) u); cbn [id] in Hne; [congruence|exact Hx]. }
  unfold toggleCompleted.
  destruct (find _ (items (state s))) as [t0|]; [|cbn; auto].
  destruct (dataCrypto (state s)) as [dc|]; [|cbn; auto].
  destruct (DataCrypto.encrypt P dc _ _ _) as [[env1|e] w1]; [|cbn; auto].
  set (f1 := fun x : Todo =>
               if code_eqb (todo_id x) p_id
               then {| todo_id := todo_id x; text := text x;
                       completed := negb (completed t0); env := env1;
                       synced := false |}
               else x).
  set (f2 := fun x : Todo =>
               if code_eqb (todo_id x) p_id
               then {| todo_id := todo_id x; text := text x;
                       completed := completed x; env := env x;
                       synced := true |}
               else x).
  assert (H1 : forall x, (todo_id (f1 x), text (f1 x)) = (todo_id x, text x))
    by (intros x; unfold f1; now destruct (code_eqb (todo_id x) p_id)).
  assert (H2 : forall x, (todo_id (f2 x), text (f2 x)) = (todo_id x, text x))
    by (intros x; unfold f2; now destruct (code_eqb (todo_id x) p_id)).
  assert (H1' : forall x, todo_id x <> p_id -> f1 x = x).
  { intros x Hx. unfold f1. apply code_eqb_neq in Hx. now rewrite Hx. }
  assert (H2' : forall x, todo_id x <> p_id -> f2 x = x).
  { intros x Hx. unfold f2. apply code_eqb_neq in Hx. now rewrite Hx. }
  assert (Hi1 : forall x, todo_id (f1 x) = todo_id x)
    by (intros x; exact (f_equal fst (H1 x))).
  assert (Hi2 : forall x, todo_id (f2 x) = todo_id x)
    by (intros x; exact (f_equal fst (H2 x))).
  destruct (userId (state s)) as [[|u0 u']|].
  - cbn [snd state todos setItems items].
    repeat split;
      [now apply Hmap | intros t; now apply (Hin f1) | intros r Hr _; exact Hr].
  - destruct (Date_toISOString P w1) as [now w2].
    cbn [snd state todos setItems items]. repeat split.
    + rewrite Hmap by exact H2. now apply Hmap.
    + apply UPDATE_SQL_keys.
    + intros t Ht Hne. apply (Hin f1); try assumption.
      apply (Hin f2) in Ht; assumption.
    + intros r. apply Hupd.
  - cbn [snd state todos setItems items].
    repeat split;
      [now apply Hmap | intros t; now apply (Hin f1) | intros r Hr _; exact Hr].
Qed.

End Handlers.

Lemma addTodo_signed_out_witness :
  exists s' t,
    TodoList.addTodo
      (@TodoList.Build_System Reference.platform
         {| TodoList.items := []; TodoList.text_input := lit " milk ";
            TodoList.bucketId := lit ""; TodoList.userId := None;
            TodoList.dataCrypto := Some {| DataCrypto.key := Reference.key32 |} |}
         [] Reference.w0) = (Resolved tt, s') /\
    TodoList.todos s' = [] /\
    TodoList.items (TodoList.state s') = [t] /\
    TodoList.text t = lit "milk" /\
    TodoList.synced t = false.
Proof.
  destruct (@addTodo_signed_out Reference.platform ReferenceLaws.ref_sodium_correct
              (@TodoList.Build_System Reference.platform
                 {| TodoList.items := []; TodoList.text_input := lit " milk ";
                    TodoList.bucketId := lit ""; TodoList.userId := None;
                    TodoList.dataCrypto := Some {| DataCrypto.key := Reference.key32 |} |}
                 [] Reference.w0)
              {| DataCrypto.key := Reference.key32 |})
    as (s' & t & H1 & H2 & H3 & H4 & _ & H6 & _).
  - reflexivity.
  - reflexivity.
  - reflexivity.
  - discriminate.
  - exists s', t. repeat split; assumption.
Defined.

Lemma addTodo_id_taken_witness :
  exists s' t,
    TodoList.addTodo
      (@TodoList.Build_System Reference.platform
         (TodoList.state Scenario.s0) (TodoList.todos Scenario.s1)
         (TodoList.outside Scenario.s0)) = (Rejected StorageFailure, s') /\
    TodoList.todos s' = TodoList.todos Scenario.s1 /\
    TodoList.items (TodoList.state s') = [t] /\
    TodoList.synced t = false.
Proof.
  destruct (@addTodo_id_taken Reference.platform ReferenceLaws.ref_sodium_correct
              (@TodoList.Build_System Reference.platform
                 (TodoList.state Scenario.s0) (TodoList.todos Scenario.s1)
                 (TodoList.outside Scenario.s0))
              {| DataCrypto.key := Reference.key32 |} (lit "user-1"))
    as (s' & t & H1 & H2 & H3 & _ & _ & H6).
  - reflexivity.
  - reflexivity.
  - reflexivity.
  - discriminate.
  - discriminate.
  - vm_compute. left. reflexivity.
  - exists s', t. repeat split; assumption.
Defined.

Lemma filter_all (A : Type) (p : A -> bool) (l : list A) :
  (forall x, In x l -> p x = true) -> filter p l = l.
Proof.
  induction l as [|x l IH]; intros H; simpl; [reflexivity|].
  rewrite (H x (or_introl eq_refl)). f_equal. apply IH.
  intros y Hy. apply H. now right.
Qed.

Lemma map_fixed (A : Type) (f : A -> A) (l : list A) :
  (forall x, In x l -> f x = x) -> map f l = l.
Proof.
  induction l as [|x l IH]; intros H; simpl; [reflexivity|].
  rewrite (H x (or_introl eq_refl)). f_equal. apply IH.
  intros y Hy. apply H. now right.
Qed.

Lemma find_map_stable (A : Type) (p : A -> bool) (g : A -> A) (l : list A) :
  (forall x, p (g x) = p x) ->
  find p (map g l) = option_map g (find p l).
Proof.
  intros Hg. induction l as [|x l IH]; simpl; [reflexivity|].
  rewrite Hg. now destruct (p x).
Qed.

Lemma NoDup_map_same (A B : Type) (f : A -> B) (l : list A) (x y : A) :
  NoDup (map f l) -> In x l -> In y l -> f x = f y -> x = y.
Proof.
  induction l as [|z l IH]; simpl; intros Hn Hx Hy E; [contradiction|].
  inversion Hn as [|? ? Hz Hl]; subst.
  destruct Hx as [->|Hx], Hy as [->|Hy].
  - reflexivity.
  - exfalso. apply Hz. rewrite E. now apply in_map.
  - exfalso. apply Hz. rewrite <- E. now apply in_map.
  - now apply IH.
Qed.

Section HandlerSequences.
Import TodoList.

Variable P : Platform.
Hypothesis sodium : sodium_correct P.

(** What [toggleCompleted] leaves on a list that holds the item, for a
    signed-in user and an unlocked list. *)
Lemma toggleCompleted_result (s : System P) (dc : DataCrypto.t) (u p_id : jsstring)
    (t0 : Todo) :
  find (fun x => code_eqb (todo_id x) p_id) (items (state s)) = Some t0 ->
  dataCrypto (state s) = Some dc ->
  List.length (DataCrypto.key dc) = crypto_aead_xchacha20poly1305_ietf_KEYBYTES ->
  userId (state s) = Some u -> u <> [] ->
  exists env1 s',
    toggleCompleted p_id s = (Resolved tt, s') /\
    items (state s')
      = map (fun x =>
               if code_eqb (todo_id x) p_id
               then {| todo_id := todo_id x; text := text x;
                       completed := negb (completed t0); env := env1;
                       synced := true |}
               else x) (items (state s)) /\
    dataCrypto (state s') = Some dc /\
    userId (state s') = Some u.
Proof.
  intros Hfind Hdc Hk Hu Hne.
  destruct (encrypt_returns sodium dc
              (utf8 (JSON_stringify P (payload_object (text t0) (negb (completed t0)))))
              (Some aad_todo) (outside s) Hk) as (n1 & c1 & _ & _ & _ & Henc).
  destruct u as [|u0 u']; [congruence|].
  unfold toggleCompleted. rewrite Hfind, Hdc, Henc, Hu.
  destruct (Date_toISOString P _) as [now w2].
  match type of Henc with _ = (Resolved ?e, _) => exists e end.
  eexists; split; [reflexivity|].
  cbn [state setItems items dataCrypto userId]. repeat split; try assumption.
  rewrite map_map. apply map_ext. intros x.
  destruct (code_eqb (todo_id x) p_id) eqn:E; cbn [todo_id]; rewrite E; reflexivity.
Qed.

(** X19. With distinct ids in the list, a signed-in user and an unlocked
    list, [toggleCompleted] twice on the same id gives back every item's
    id, text and completed flag. *)
Theorem toggleCompleted_twice (s : System P) (dc : DataCrypto.t) (u p_id : jsstring) :
  dataCrypto (state s) = Some dc ->
  List.length (DataCrypto.key dc) = crypto_aead_xchacha20poly1305_ietf_KEYBYTES ->
  userId (state s) = Some u -> u <> [] ->
  NoDup (map todo_id (items (state s))) ->
  map (fun t => (todo_id t, text t, completed t))
      (items (state (snd (toggleCompleted p_id (snd (toggleCompleted p_id s))))))
  = map (fun t => (todo_id t, text t, completed t)) (items (state s)).
Proof.
  intros Hdc Hk Hu Hne Hnd.
  destruct (find (fun x => code_eqb (todo_id x) p_id) (items (state s)))
    as [t0|] eqn:Hfind.
  - destruct (toggleCompleted_result s p_id Hfind Hdc Hk Hu Hne)
      as (env1 & s1 & E1 & Hi1 & Hdc1 & Hu1).
    rewrite E1. cbn [snd].
    assert (Hfind1 : exists t1, find (fun x => code_eqb (todo_id x) p_id)
                                  (items (state s1)) = Some t1
                                /\ completed t1 = negb (completed t0)).
    { rewrite Hi1, find_map_stable, Hfind.
      - cbn [option_map]. eexists. split; [reflexivity|].
        apply find_some in Hfind as [_ E]. rewrite E. reflexivity.
      - intros x. now destruct (code_eqb (todo_id x) p_id) eqn:E. }
    destruct Hfind1 as (t1 & Hfind1 & Hc1).
    destruct (toggleCompleted_result s1 p_id Hfind1 Hdc1 Hk Hu1 Hne)
      as (env2 & s2 & E2 & Hi2 & _ & _).
    rewrite E2. cbn [snd]. rewrite Hi2, Hi1, !map_map.
    apply map_ext_in. intros x Hx.
    destruct (code_eqb (todo_id x) p_id) eqn:E; cbn [todo_id]; rewrite E;
      [|reflexivity].
    cbn [todo_id text completed]. rewrite Hc1, negb_involutive.
    apply find_some in Hfind as [Ht0 E0].
    apply code_eqb_eq in E, E0.
    assert (x = t0) by (apply (NoDup_map_same todo_id _ _ _ Hnd Hx Ht0); congruence).
    now subst.
  - assert (E : toggleCompleted p_id s = (Resolved tt, s))
      by (unfold toggleCompleted; now rewrite Hfind).
    rewrite E. cbn [snd]. rewrite E. reflexivity.
Qed.

(** X20. [addTodo] followed by [removeTodo] of the id it drew, when that
    id is neither in the table nor in the list: the table and the list are
    again what they were. *)
Theorem addTodo_then_removeTodo (s : System P) (dc : DataCrypto.t) (u : jsstring) :
  dataCrypto (state s) = Some dc ->
  List.length (DataCrypto.key dc) = crypto_aead_xchacha20poly1305_ietf_KEYBYTES ->
  userId (state s) = Some u -> u <> [] ->
  trim (text_input (state s)) <> [] ->
  let new_id :=
    fst (cryptoRandomId P
           (snd (randombytes_buf P crypto_aead_xchacha20poly1305_ietf_NPUBBYTES
                   (outside s)))) in
  ~ In new_id (map id (todos s)) ->
  ~ In new_id (map todo_id (items (state s))) ->
  fst (addTodo s) = Resolved tt /\
  In new_id (map id (todos (snd (addTodo s)))) /\
  todos (snd (removeTodo new_id (snd (addTodo s)))) = todos s /\
  items (state (snd (removeTodo new_id (snd (addTodo s))))) = items (state s).
Proof.
  intros Hdc Hk Hu Hne Ha new_id Hrow Hitem.
  destruct (encrypt_returns sodium dc
              (utf8 (JSON_stringify P
                       (payload_object (trim (text_input (state s))) false)))
              (Some aad_todo) (outside s) Hk) as (n1 & c1 & _ & _ & _ & Henc).
  subst new_id.
  destruct (cryptoRandomId P _) as [new_id w2] eqn:Hid. cbn [fst] in *.
  destruct (Date_toISOString P w2) as [now w3] eqn:Hnow.
  assert (Hfresh : forall r, In r (todos s) -> id r <> new_id).
  { intros r Hr E. apply Hrow. rewrite <- E. now apply in_map. }
  destruct (addTodo_inserts s Hdc Hu Hne Ha Henc Hid Hnow Hfresh)
    as (st1 & Hi1 & Hdc1 & Hu1 & E1).
  rewrite E1. cbn [fst snd todos]. split; [reflexivity|]. split.
  { rewrite map_app. apply in_or_app. right. now left. }
  unfold removeTodo. cbn [state todos snd setItems items]. rewrite Hu1.
  destruct u as [|u0 u']; [congruence|]. split.
  - unfold DELETE_SQL. rewrite filter_app. cbn [filter id user_id].
    rewrite !code_eqb_refl. cbn [andb negb]. rewrite app_nil_r.
    apply filter_all. intros r Hr.
    apply Hfresh in Hr. apply code_eqb_neq in Hr. now rewrite Hr.
  - rewrite Hi1. cbn [filter todo_id]. rewrite code_eqb_refl. cbn [negb].
    assert (Hother : forall t, In t (items (state s)) ->
                               code_eqb (todo_id t) new_id = false).
    { intros t Ht. apply code_eqb_neq. intros E. apply Hitem. rewrite <- E.
      now apply in_map. }
    rewrite map_fixed.
    + apply filter_all. intros t Ht. now rewrite (Hother t Ht).
    + intros t Ht. now rewrite (Hother t Ht).
Qed.

End HandlerSequences.

Lemma toggleCompleted_twice_witness :
  map (fun t => (TodoList.todo_id t, TodoList.text t, TodoList.completed t))
      (TodoList.items (TodoList.state
         (snd (TodoList.toggleCompleted Scenario.inserted_id
                 (snd (TodoList.toggleCompleted Scenario.inserted_id Scenario.s1))))))
  = map (fun t => (TodoList.todo_id t, TodoList.text t, TodoList.completed t))
        (TodoList.items (TodoList.state Scenario.s1)).
Proof.
  apply (@toggleCompleted_twice Reference.platform ReferenceLaws.ref_sodium_correct
           Scenario.s1 {| DataCrypto.key := Reference.key32 |} (lit "user-1")).
  - reflexivity.
  - reflexivity.
  - reflexivity.
  - discriminate.
  - vm_compute. constructor; [intros []|constructor].
Defined.

Lemma addTodo_then_removeTodo_witness :
  TodoList.todos
    (snd (TodoList.removeTodo Scenario.inserted_id (snd (TodoList.addTodo Scenario.s0))))
  = TodoList.todos Scenario.s0.
Proof.
  assert (H1 : ~ In Scenario.inserted_id (map id (TodoList.todos Scenario.s0)))
    by (vm_compute; intros []).
  assert (H2 : ~ In Scenario.inserted_id
                   (map TodoList.todo_id (TodoList.items (TodoList.state Scenario.s0))))
    by (vm_compute; intros []).
  exact (proj1 (proj2 (proj2
    (@addTodo_then_removeTodo Reference.platform ReferenceLaws.ref_sodium_correct
       Scenario.s0 {| DataCrypto.key := Reference.key32 |} (lit "user-1")
       eq_refl eq_refl eq_refl
       ltac:(discriminate) ltac:(vm_compute; discriminate) H1 H2)))).
Defined.

(* ------------------------------------------------------------------ *)
(** ** [TodoList]: [refreshFromServer] *)
(* ------------------------------------------------------------------ *)

Section Refresh.
Import TodoList TodoEffects.

Variable P : Platform.
Variable crypto : CryptoProvider.

Lemma refresh_rows_fold (dc : option DataCrypto.t) (rows : list TodoRow)
    (acc : list Todo) :
  fold_left
    (fun decrypted r =>
       match refresh_row P crypto dc r with
       | Resolved t => decrypted ++ [t]
       | Rejected _ => decrypted
       end) rows acc
  = acc ++ flat_map (fun r => match refresh_row P crypto dc r with
                              | Resolved t => [t]
                              | Rejected _ => []
                              end) rows.
Proof.
  revert acc. induction rows as [|r rows IH]; intros acc; simpl.
  - now rewrite app_nil_r.
  - rewrite IH. destruct (refresh_row P crypto dc r).
    + now rewrite <- app_assoc.
    + reflexivity.
Qed.

Lemma refresh_rows_length (dc : option DataCrypto.t) (rows : list TodoRow) :
  List.length (flat_map (fun r => match refresh_row P crypto dc r with
                                  | Resolved t => [t]
                                  | Rejected _ => []
                                  end) rows)
  <= List.length rows.
Proof.
  induction rows as [|r rows IH]; [apply Nat.le_refl|].
  cbn [flat_map]. rewrite length_app.
  destruct (refresh_row P crypto dc r); cbn [List.length]; lia.
Qed.

Lemma refresh_row_unlocked (d : DataCrypto.t) (r : TodoRow) :
  decrypt_row P crypto (Some d) r
  = match refresh_row P crypto (Some d) r with
    | Resolved t => Resolved (Some t)
    | Rejected e => Rejected e
    end.
Proof.
  unfold decrypt_row, refresh_row.
  destruct (includes (header_alg (header (row_envelope r))) (lit "/raw")).
  - destruct (DataCrypto.decrypt P d _ _); [|reflexivity].
    now destruct (parse_plain P _).
  - destruct (provider_decrypt crypto _ _); [|reflexivity].
    now destruct (parse_plain P _).
Qed.

Lemma refresh_row_shape (dc : option DataCrypto.t) (r : TodoRow) (t : Todo) :
  refresh_row P crypto dc r = Resolved t ->
  todo_id t = id r /\ env t = row_envelope r /\ synced t = true.
Proof.
  unfold refresh_row.
  destruct (if includes _ _ then dc else None).
  - destruct (DataCrypto.decrypt P _ _ _); [|discriminate].
    destruct (parse_plain P _). intros [= <-]. now cbn.
  - destruct (provider_decrypt crypto _ _); [|discriminate].
    destruct (parse_plain P _). intros [= <-]. now cbn.
Qed.

(** X21. On an unlocked list, the loop of [refreshFromServer] and the loop
    of the decrypt effect build the same items from the same rows. *)
Theorem refresh_rows_unlocked (d : DataCrypto.t) (rows : list TodoRow) :
  refresh_rows P crypto (Some d) rows
  = serverItems (decrypt_rows P crypto (Some d) rows).
Proof.
  unfold refresh_rows. rewrite refresh_rows_fold, decrypt_rows_spec.
  cbn [serverItems app].
  induction rows as [|r rows IH]; [reflexivity|].
  cbn [flat_map]. rewrite IH. f_equal.
  unfold projection. rewrite refresh_row_unlocked.
  now destruct (refresh_row P crypto (Some d) r).
Qed.

(** X22. [refreshFromServer] of a signed-in user leaves the table as it
    is and replaces the list: every item it leaves is marked synced and
    carries the id and the envelope of a row of that user, at most one item
    per such row; items that were not yet synced are not kept. *)
Theorem refreshFromServer_replaces (s : System P) (u : jsstring) :
  userId (state s) = Some u -> u <> [] ->
  let s' := refreshFromServer crypto s in
  todos s' = todos s /\
  List.length (items (state s'))
    <= List.length (filter (fun r => code_eqb (user_id r) u) (todos s)) /\
  forall t, In t (items (state s')) ->
    synced t = true /\
    exists r, In r (todos s) /\ user_id r = u /\
              todo_id t = id r /\ env t = row_envelope r.
Proof.
  intros Hu Hne s'. subst s'. unfold refreshFromServer. rewrite Hu.
  destruct u as [|u0 u']; [congruence|].
  cbn [todos state setItems items]. split; [reflexivity|].
  unfold refresh_rows. rewrite refresh_rows_fold. cbn [app]. split.
  - rewrite <- (Permutation_length (SELECT_BY_USER_SQL_perm (todos s) (u0 :: u'))).
    apply refresh_rows_length.
  - intros t Ht. apply in_flat_map in Ht as (r & Hr & Ht).
    apply SELECT_BY_USER_SQL_In in Hr as [Hr Hur].
    destruct (refresh_row P crypto _ r) as [t'|] eqn:E; [|contradiction].
    destruct Ht as [<-|[]].
    destruct (refresh_row_shape _ _ E) as (H1 & H2 & H3).
    split; [exact H3|]. exists r. repeat split; assumption.
Qed.

End Refresh.

Lemma refreshFromServer_replaces_witness :
  TodoList.todos (TodoEffects.refreshFromServer Reference.locked_provider Scenario.s1)
  = TodoList.todos Scenario.s1.
Proof.
  exact (proj1 (@refreshFromServer_replaces Reference.platform
                  Reference.locked_provider Scenario.s1 (lit "user-1")
                  eq_refl ltac:(discriminate))).
Defined.

(* ------------------------------------------------------------------ *)
(** ** [TodoList]: the guard of the effect that prepares the DEK *)
(* ------------------------------------------------------------------ *)

Section DekGuard.
Import TodoEffects.

(** What every reachable state of the guard satisfies. *)
Lemma dek_run_invariant (trace : list DekEvent) (st st' : DekState) :
  ((initInFlight st = true /\ suspended st = 1 /\ dekReadyRef st = false) \/
   (initInFlight st = false /\ suspended st = 0)) ->
  (dekReadyRef st = true -> dek_dataCrypto st <> None) ->
  dek_run trace st = Some st' ->
  ((initInFlight st' = true /\ suspended st' = 1 /\ dekReadyRef st' = false) \/
   (initInFlight st' = false /\ suspended st' = 0)) /\
  (dekReadyRef st' = true -> dek_dataCrypto st' <> None).
Proof.
  revert st. induction trace as [|ev trace IH]; intros st Hg Hr Hrun.
  - injection Hrun as <-. now split.
  - cbn [dek_run] in Hrun.
    destruct (dek_step ev st) as [st1|] eqn:Es; [|discriminate].
    apply (IH st1); [| |exact Hrun]; clear IH Hrun.
    + destruct ev as [uid|outcome]; cbn [dek_step] in Es.
      * injection Es as <-. unfold begin.
        destruct (negb (truthy uid)); [exact Hg|].
        destruct (dekReadyRef st) eqn:Er; cbn [orb]; [exact Hg|].
        destruct (initInFlight st) eqn:Ei; [exact Hg|].
        left. cbn. destruct Hg as [(H & _)|(_ & H)]; [discriminate|].
        rewrite H. auto.
      * destruct (suspended st) eqn:E; [discriminate|]. injection Es as <-.
        right. destruct Hg as [(_ & H & _)|(_ & H)]; [|discriminate].
        injection H as ->. destruct outcome; cbn; rewrite E; auto.
    + destruct ev as [uid|outcome]; cbn [dek_step] in Es.
      * injection Es as <-. unfold begin.
        destruct (negb (truthy uid)); [exact Hr|].
        destruct (dekReadyRef st) eqn:Er; cbn [orb]; [exact Hr|].
        destruct (initInFlight st); cbn; [exact Hr|discriminate].
      * destruct (suspended st) eqn:E; [discriminate|]. injection Es as <-.
        destruct Hg as [(_ & _ & H)|(_ & H)]; [|discriminate].
        destruct outcome; cbn; [discriminate|]. now rewrite H.
Qed.

(** X23. Whatever the interleaving of the runs of the effect: at most one
    run is between the guard and the end of its [finally], [initInFlight]
    is set exactly while there is such a run, and once [dekReadyRef] is set
    no run is in flight and [dataCrypto] is set. *)
Theorem dek_guard_one_run (trace : list DekEvent) (st : DekState) :
  dek_run trace mounted = Some st ->
  suspended st <= 1 /\
  (initInFlight st = true <-> suspended st = 1) /\
  (dekReadyRef st = true ->
   initInFlight st = false /\ dek_dataCrypto st <> None).
Proof.
  intros Hrun.
  destruct (@dek_run_invariant trace mounted st) as [Hg Hr];
    [right; now split | discriminate | exact Hrun |].
  destruct Hg as [(H1 & H2 & H3)|(H1 & H2)]; rewrite ?H1, ?H2, ?H3.
  - repeat split; auto; discriminate.
  - repeat split; auto; discriminate.
Qed.

(** X24. Once the DEK is ready, later runs of the effect only set
    [userId]: none enters the [try] again, and [dataCrypto] and the two
    refs stay as they are. *)
Theorem dek_ready_is_final (before after : list DekEvent) (st st' : DekState) :
  dek_run before mounted = Some st ->
  dekReadyRef st = true ->
  dek_run after st = Some st' ->
  calls st' = calls st /\
  dek_dataCrypto st' = dek_dataCrypto st /\
  dekReadyRef st' = true /\ initInFlight st' = false /\
  Forall (fun ev => match ev with Begin _ => True | Settle _ => False end) after.
Proof.
  intros Hrun Hready Hafter.
  destruct (@dek_run_invariant before mounted st) as [Hg _];
    [right; now split | discriminate | exact Hrun |].
  assert (Hi : initInFlight st = false /\ suspended st = 0).
  { destruct Hg as [(_ & _ & H)|H]; [congruence|exact H]. }
  clear Hg Hrun before. destruct Hi as [Hi Hs].
  revert st Hready Hi Hs Hafter.
  induction after as [|ev after IH]; intros st Hready Hi Hs Hafter.
  - injection Hafter as <-. repeat split; auto.
  - cbn [dek_run] in Hafter. destruct ev as [uid|outcome]; cbn [dek_step] in Hafter.
    + assert (Hb : calls (begin uid st) = calls st /\
                   dek_dataCrypto (begin uid st) = dek_dataCrypto st /\
                   dekReadyRef (begin uid st) = true /\
                   initInFlight (begin uid st) = false /\
                   suspended (begin uid st) = 0).
      { unfold begin. rewrite Hready. cbn [orb].
        destruct (negb (truthy uid)); cbn; auto. }
      destruct Hb as (Hc & Hd & Hr' & Hi' & Hs').
      destruct (IH _ Hr' Hi' Hs' Hafter) as (H1 & H2 & H3 & H4 & H5).
      repeat split; try congruence. constructor; [exact I|exact H5].
    + rewrite Hs in Hafter. discriminate.
Qed.

End DekGuard.

Lemma dek_guard_one_run_witness :
  TodoEffects.suspended
    {| TodoEffects.initInFlight := true; TodoEffects.dekReadyRef := false;
       TodoEffects.dek_userId := Some (lit "user-1");
       TodoEffects.dek_dataCrypto := None;
       TodoEffects.suspended := 1; TodoEffects.calls := 1 |} <= 1.
Proof.
  exact (proj1 (@dek_guard_one_run
                  [TodoEffects.Begin (Some (lit "user-1"));
                   TodoEffects.Begin (Some (lit "user-1"))] _ eq_refl)).
Defined.

Lemma dek_ready_is_final_witness :
  TodoEffects.calls
    {| TodoEffects.initInFlight := false; TodoEffects.dekReadyRef := true;
       TodoEffects.dek_userId := Some (lit "user-2");
       TodoEffects.dek_dataCrypto := Some {| DataCrypto.key := Reference.key32 |};
       TodoEffects.suspended := 0; TodoEffects.calls := 1 |}
  = TodoEffects.calls
      {| TodoEffects.initInFlight := false; TodoEffects.dekReadyRef := true;
         TodoEffects.dek_userId := Some (lit "user-1");
         TodoEffects.dek_dataCrypto := Some {| DataCrypto.key := Reference.key32 |};
         TodoEffects.suspended := 0; TodoEffects.calls := 1 |}.
Proof.
  exact (proj1 (@dek_ready_is_final
                  [TodoEffects.Begin (Some (lit "user-1"));
                   TodoEffects.Settle (Resolved Reference.key32)]
                  [TodoEffects.Begin (Some (lit "user-2"))] _ _
                  eq_refl eq_refl eq_refl)).
Defined.

(* ------------------------------------------------------------------ *)
(** ** [SyncStatusBadge] and the status line of [TodoList] *)
(* ------------------------------------------------------------------ *)

(** X25. The badge and the status line of the list show the same text
    for every status. *)
Theorem badge_label_is_list_status_text (st : SyncStatus.Status) :
  SyncStatus.badge_label st = SyncStatus.list_status_text st.
Proof.
  unfold SyncStatus.badge_label, SyncStatus.list_status_text.
  destruct (SyncStatus.connecting st); [reflexivity|].
  destruct (SyncStatus.connected st); [|reflexivity].
  cbn [andb]. now destruct (SyncStatus.flowing st).
Qed.

(* ------------------------------------------------------------------ *)
(** ** [TokenConnector.uploadData] *)
(* ------------------------------------------------------------------ *)

Section Upload.
Import Connector.

Variable R : Type.
Variable client : SupabaseClient R.

Lemma send_all_done (tx : list CrudEntry) (remote remote' : R) :
  send_all client tx remote = (None, remote') ->
  remote' = apply_all client tx remote.
Proof.
  unfold apply_all. revert remote.
  induction tx as [|e tx IH]; intros remote H; cbn [send_all fold_left] in *.
  - now injection H.
  - destruct (send client e remote) as [r1 [| m | m]]; cbn [fst];
      [now apply IH | discriminate | discriminate].
Qed.

Lemma apply_all_app (a b : list CrudEntry) (remote : R) :
  apply_all client (a ++ b) remote = apply_all client b (apply_all client a remote).
Proof.
  unfold apply_all. apply fold_left_app.
Qed.

(** X26. Without a Supabase client, [uploadData] completes every
    transaction of the queue and sends nothing. *)
Theorem uploadData_without_client (queue : list (list CrudEntry)) (remote : R) :
  uploadData client false queue remote = (Resolves, [], remote).
Proof.
  induction queue as [|tx rest IH]; [reflexivity|exact IH].
Qed.

(** X27. With a client, [uploadData] completes a prefix of the queue:
    the operations of the completed transactions have all been sent, in
    order; it resolves exactly when the queue is left empty; and when it
    rejects, the transaction in which an operation failed is still the first
    of the queue, although its operations before the failing one have been
    sent. *)
Theorem uploadData_completes_a_prefix (queue : list (list CrudEntry)) (remote : R) :
  exists done,
    queue = done ++ snd (fst (uploadData client true queue remote)) /\
    match uploadData client true queue remote with
    | (Resolves, rest, remote') =>
        rest = [] /\ remote' = apply_all client (concat done) remote
    | (Rejects m, rest, remote') =>
        exists tx rest',
          rest = tx :: rest' /\
          send_all client tx (apply_all client (concat done) remote)
            = (Some m, remote')
    end.
Proof.
  revert remote. induction queue as [|tx rest IH]; intros remote.
  - exists []. split; [reflexivity|]. cbn. now split.
  - cbn [uploadData].
    destruct (send_all client tx remote) as [[err|] r1] eqn:E.
    + exists []. cbn [app snd fst concat]. split; [reflexivity|].
      exists tx, rest. now split.
    + destruct (IH r1) as (done & Hq & Hm).
      exists (tx :: done). split.
      * cbn [app]. now f_equal.
      * cbn [concat]. rewrite apply_all_app, <- (send_all_done _ _ E).
        exact Hm.
Qed.

End Upload.

(* ------------------------------------------------------------------ *)
(** ** [App.tsx]: [slugify], the key id and [labelFromId] *)
(* ------------------------------------------------------------------ *)

Section Slug.
Import App.

Lemma is_slug_char_not_dash (c : N) : is_slug_char c = true -> c <> dash.
Proof.
  intros H ->. discriminate H.
Qed.

Lemma is_slug_char_not_colon (c : N) : is_slug_char c = true -> c <> colon.
Proof.
  intros H ->. discriminate H.
Qed.

Lemma replace_runs_chars (b : bool) (s : jsstring) (c : N) :
  In c (replace_runs b s) -> is_slug_char c = true \/ c = dash.
Proof.
  revert b. induction s as [|x s IH]; intros b; cbn [replace_runs]; [intros []|].
  destruct (is_slug_char x) eqn:E.
  - intros [<-|H]; [now left|now apply (IH false)].
  - destruct b; [now apply IH|].
    intros [<-|H]; [now right|now apply (IH true)].
Qed.

Lemma replace_runs_in_run (s t : jsstring) : replace_runs true s <> dash :: t.
Proof.
  induction s as [|x s IH]; cbn [replace_runs]; [discriminate|].
  destruct (is_slug_char x) eqn:E; [|exact IH].
  intros [= -> _]. discriminate E.
Qed.

Lemma replace_runs_single_dashes (b : bool) (s a t : jsstring) :
  replace_runs b s <> a ++ dash :: dash :: t.
Proof.
  revert b a. induction s as [|x s IH]; intros b a; cbn [replace_runs].
  - now destruct a.
  - destruct (is_slug_char x) eqn:E.
    + destruct a as [|y a]; cbn [app].
      * intros [= -> _]. discriminate E.
      * intros [= _ H]. exact (IH _ _ H).
    + destruct b; [apply IH|].
      destruct a as [|y a]; cbn [app].
      * intros [= H]. exact (replace_runs_in_run _ H).
      * intros [= _ H]. exact (IH _ _ H).
Qed.

Lemma drop_dashes_suffix (s : jsstring) : exists p, s = p ++ drop_dashes s.
Proof.
  induction s as [|x s (p & IH)]; cbn [drop_dashes]; [now exists []|].
  destruct (N.eqb x dash).
  - exists (x :: p). cbn [app]. now f_equal.
  - now exists [].
Qed.

Lemma drop_dashes_head (s t : jsstring) : drop_dashes s <> dash :: t.
Proof.
  induction s as [|x s IH]; cbn [drop_dashes]; [discriminate|].
  destruct (N.eqb x dash) eqn:E; [exact IH|].
  intros [= -> _]. discriminate E.
Qed.

(** Stripping the dashes at both ends leaves a part of the string. *)
Lemma strip_dashes_part (s : jsstring) :
  exists p q, s = p ++ strip_dashes s ++ q /\ drop_dashes s = strip_dashes s ++ q.
Proof.
  unfold strip_dashes.
  destruct (drop_dashes_suffix s) as (p & Hp).
  destruct (drop_dashes_suffix (rev (drop_dashes s))) as (q & Hq).
  exists p, (rev q). split.
  - rewrite Hp at 1. f_equal.
    rewrite <- rev_app_distr, <- Hq. now rewrite rev_involutive.
  - rewrite <- rev_app_distr, <- Hq. now rewrite rev_involutive.
Qed.

(** What [slugify] returns before [|| "list"]. *)
Lemma slug_body (x : jsstring) :
  let r := firstn 32 (strip_dashes (replace_runs false x)) in
  List.length r <= 32 /\
  (forall c, In c r -> is_slug_char c = true \/ c = dash) /\
  (forall t, r <> dash :: t) /\
  (forall a t, r <> a ++ dash :: dash :: t).
Proof.
  cbv zeta.
  destruct (strip_dashes_part (replace_runs false x)) as (p & q & Hw & Hd).
  set (m := strip_dashes (replace_runs false x)) in *.
  pose proof (firstn_skipn 32 m) as Hm.
  split; [apply firstn_le_length|]. split; [|split].
  - intros c Hc. apply (replace_runs_chars false x). rewrite Hw.
    apply in_or_app. right. apply in_or_app. left.
    rewrite <- Hm. apply in_or_app. now left.
  - intros t E. apply (@drop_dashes_head (replace_runs false x) (t ++ skipn 32 m ++ q)).
    rewrite Hd, <- Hm at 1. rewrite E. cbn [app]. now rewrite <- app_assoc.
  - intros a t E.
    apply (@replace_runs_single_dashes false x (p ++ a) (t ++ skipn 32 m ++ q)).
    rewrite Hw. rewrite <- Hm at 1. rewrite E.
    rewrite <- !app_assoc. cbn [app]. reflexivity.
Qed.

Lemma slugify_facts (toLowerCase : jsstring -> jsstring) (s : jsstring) :
  slugify toLowerCase s <> [] /\
  (forall c, In c (slugify toLowerCase s) -> is_slug_char c = true \/ c = dash).
Proof.
  unfold slugify.
  destruct (slug_body (trim (toLowerCase s))) as (_ & H2 & _).
  destruct (firstn 32 _) as [|c r]; cbn [or_list].
  - split; [discriminate|].
    intros c Hc. left. cbv in Hc.
    repeat (destruct Hc as [<-|Hc]; [reflexivity|]). contradiction.
  - split; [discriminate|exact H2].
Qed.

(** X28. Whatever [toLowerCase] does and whatever the name, [slugify]
    returns a non-empty string of at most 32 code units, all of them in
    [a-z0-9] or dashes, that does not start with a dash and has no two
    dashes in a row. *)
Theorem slugify_well_formed (toLowerCase : jsstring -> jsstring) (s : jsstring) :
  let r := slugify toLowerCase s in
  r <> [] /\
  List.length r <= 32 /\
  (forall c, In c r -> is_slug_char c = true \/ c = dash) /\
  (forall t, r <> dash :: t) /\
  (forall a t, r <> a ++ dash :: dash :: t).
Proof.
  cbv zeta. unfold slugify.
  destruct (slug_body (trim (toLowerCase s))) as (H1 & H2 & H3 & H4).
  destruct (firstn 32 _) as [|c r]; cbn [or_list].
  - split; [discriminate|]. split; [cbn; lia|]. split; [|split].
    + intros c Hc. left. cbv in Hc.
      repeat (destruct Hc as [<-|Hc]; [reflexivity|]). contradiction.
    + discriminate.
    + intros a t E.
      do 5 (destruct a as [|? a]; [discriminate E|]).
      apply (f_equal (@List.length N)) in E. cbn in E.
      rewrite length_app in E. cbn in E. lia.
  - split; [discriminate|]. auto.
Qed.

Lemma split_without (sep : N) (s : jsstring) :
  ~ In sep s -> OpenListCard.split sep s = [s].
Proof.
  induction s as [|c s IH]; intros H; cbn [OpenListCard.split]; [reflexivity|].
  destruct (N.eqb_spec c sep) as [->|_].
  - exfalso. apply H. now left.
  - rewrite IH; [reflexivity|]. intros Hs. apply H. now right.
Qed.

Lemma split_at (sep : N) (a b : jsstring) :
  ~ In sep a ->
  OpenListCard.split sep (a ++ sep :: b) = a :: OpenListCard.split sep b.
Proof.
  induction a as [|c a IH]; intros H; cbn [app OpenListCard.split].
  - now rewrite N.eqb_refl.
  - destruct (N.eqb_spec c sep) as [->|_].
    + exfalso. apply H. now left.
    + rewrite IH; [reflexivity|]. intros Hs. apply H. now right.
Qed.

Lemma method_name_no_colon (m : Method) : ~ In colon (method_name m).
Proof.
  destruct m; cbv; intros H;
    repeat (destruct H as [H|H]; [discriminate H|]); exact H.
Qed.

(** X29. [labelFromId] gives back the slug of a key id that [onCreate]
    built for a signed-in user whose id has no colon; for a key id built
    without a user id it gives the whole id. *)
Theorem labelFromId_keyId (toLowerCase : jsstring -> jsstring)
    (name u : jsstring) (m : Method) :
  u <> [] -> ~ In colon u ->
  OpenListCard.labelFromId (keyId (Some u) m (slugify toLowerCase name))
    = slugify toLowerCase name /\
  OpenListCard.labelFromId (keyId None m (slugify toLowerCase name))
    = keyId None m (slugify toLowerCase name).
Proof.
  intros Hne Hu.
  destruct (slugify_facts toLowerCase name) as (Hs & Hc).
  set (slug := slugify toLowerCase name) in *.
  assert (Hslug : ~ In colon slug).
  { intros H. destruct (Hc _ H) as [E|E]; [discriminate E|discriminate E]. }
  split.
  - destruct u as [|u0 u']; [congruence|].
    unfold OpenListCard.labelFromId, keyId.
    rewrite (@split_at colon (u0 :: u') _ Hu),
      (@split_at colon (method_name m) _ (method_name_no_colon m)),
      (@split_without colon slug Hslug).
    cbn [nth_error]. destruct slug; [congruence|reflexivity].
  - unfold OpenListCard.labelFromId, keyId.
    rewrite (@split_at colon (method_name m) _ (method_name_no_colon m)),
      (@split_without colon slug Hslug).
    reflexivity.
Qed.

End Slug.

Lemma labelFromId_keyId_witness :
  OpenListCard.labelFromId
    (App.keyId (Some (lit "user-1")) App.password
       (App.slugify (fun s => s) (lit "Groceries 2025")))
  = App.slugify (fun s => s) (lit "Groceries 2025").
Proof.
  assert (H : ~ In App.colon (lit "user-1")).
  { cbv. intros H. repeat (destruct H as [H|H]; [discriminate H|]). exact H. }
  exact (proj1 (@labelFromId_keyId (fun s => s) (lit "Groceries 2025")
                  (lit "user-1") App.password ltac:(discriminate) H)).
Defined.

(* ------------------------------------------------------------------ *)
(** ** [useEncryptedQuery]: the statement and its parameters *)
(* ------------------------------------------------------------------ *)

Section QueryText.
Import Hooks.

Lemma placeholders_app (a b : jsstring) :
  placeholders (a ++ b) = placeholders a + placeholders b.
Proof.
  apply count_occ_app.
Qed.

Lemma placeholders_join (sep : jsstring) (parts : list jsstring) :
  placeholders sep = 0 ->
  (forall p, In p parts -> placeholders p = 0) ->
  placeholders (join sep parts) = 0.
Proof.
  intros Hsep. induction parts as [|p ps IH]; intros H; [reflexivity|].
  cbn [join]. destruct ps as [|p' ps].
  - apply H. now left.
  - rewrite !placeholders_app, Hsep, (H p (or_introl eq_refl)), IH; [reflexivity|].
    intros x Hx. apply H. now right.
Qed.

Variable V : Type.

(** X30. The statement [useEncryptedQuery] builds has as many [?] as the
    parameter list it passes along, provided that the column names, the
    table name and the ORDER BY text have no [?] and that [extraWhere] has
    one [?] for each of [parameters]. *)
Theorem sql_placeholders_match_params (pair : Pair) (args : Args V) :
  (forall c, In c (mirrorColumns pair) -> placeholders c = 0) ->
  placeholders (mirrorTable pair) = 0 ->
  placeholders (order args) = 0 ->
  placeholders (match extraWhere args with Some w => w | None => [] end)
    = List.length (match parameters args with Some ps => ps | None => [] end) ->
  placeholders (sql pair args) = List.length (params args).
Proof.
  intros Hcols Htable Horder Hextra.
  assert (Hsel : placeholders (selectCols pair) = 0).
  { unfold selectCols. apply placeholders_join; [reflexivity|].
    intros p Hp. apply in_app_or in Hp as [Hp|Hp]; [|now apply Hcols].
    repeat (destruct Hp as [<-|Hp]; [reflexivity|]). contradiction. }
  assert (Hbucket : placeholders (bucketSql args)
                    = match bucketId args with BucketValue _ => 1 | _ => 0 end).
  { unfold bucketSql. now destruct (bucketId args). }
  assert (Hex : placeholders (extra args)
                = placeholders (match extraWhere args with
                                | Some w => w | None => [] end)).
  { unfold extra. destruct (extraWhere args) as [[|c w]|]; try reflexivity.
    rewrite !placeholders_app. cbn [placeholders]. 
    change (placeholders (lit " ")) with 0. lia. }
  assert (Hpar : List.length (params args)
                 = 1 + match bucketId args with BucketValue _ => 1 | _ => 0 end
                   + List.length (match parameters args with
                                  | Some ps => ps | None => [] end)).
  { unfold params.
    destruct (parameters args) as [ps|]; destruct (bucketId args);
      cbn [List.length app]; rewrite ?length_app, ?length_map;
      cbn [List.length]; lia. }
  rewrite Hpar, <- Hextra, <- Hex, <- Hbucket.
  unfold sql. rewrite !placeholders_app, Hsel, Htable, Horder.
  change (placeholders nl) with 0.
  change (placeholders (lit "    SELECT ")) with 0.
  change (placeholders (lit "      FROM ")) with 0.
  change (placeholders (lit "     WHERE user_id = ?")) with 1.
  change (placeholders (lit "     ")) with 0.
  change (placeholders (lit "     ORDER BY ")) with 0.
  change (placeholders (lit "  ")) with 0.
  lia.
Qed.

End QueryText.

Lemma sql_placeholders_match_params_witness :
  Hooks.placeholders
    (Hooks.sql {| Hooks.mirrorTable := lit "todos_plain";
                  Hooks.mirrorColumns := [lit "text"; lit "completed"] |}
               {| Hooks.userId := Some (lit "user-1");
                  Hooks.bucketId := Hooks.BucketValue (lit "b1");
                  Hooks.extraWhere := Some (lit "AND completed = ?");
                  Hooks.parameters := Some [false];
                  Hooks.throttleMs := None;
                  Hooks.orderBy := None |})
  = 3.
Proof.
  apply (@sql_placeholders_match_params bool
           {| Hooks.mirrorTable := lit "todos_plain";
              Hooks.mirrorColumns := [lit "text"; lit "completed"] |}
           {| Hooks.userId := Some (lit "user-1");
              Hooks.bucketId := Hooks.BucketValue (lit "b1");
              Hooks.extraWhere := Some (lit "AND completed = ?");
              Hooks.parameters := Some [false];
              Hooks.throttleMs := None;
              Hooks.orderBy := None |}).
  - intros c Hc. repeat (destruct Hc as [<-|Hc]; [reflexivity|]). contradiction.
  - reflexivity.
  - reflexivity.
  - reflexivity.
Defined.
